(** * ml-courses: the SSE loss, the naive stochastic search and the SSE surface

    A shallow embedding of [ml_courses/sim/monte_carlo_tips.py] and
    [ml_courses/sim/linear_regression_sse_viz.py].

    Numbers.  Python [float]s and NumPy [float64] arrays are idealised as
    mathematical reals ([R]) and lists of reals: rounding, overflow, infinities
    and NaN are not part of this model.  Python [int]s are [Z].  The
    exception is the module [Binary64]: the loss and the constructor of the
    visualizer on IEEE 754 binary64 numbers, there to evaluate concrete calls
    bit for bit, the worked example among them, and to show where the float64
    code departs from a statement that is exact over the reals.

    Effects.  A Python exception is a value of [exception]; a call that may
    raise returns a [result].  The NumPy random generator owned by a simulation
    is an abstract state [RNG] threaded explicitly through every draw. *)

From Corelib Require Import PrimFloat.
From Stdlib Require Import String.
From Stdlib Require Import Reals Lra Lia ZArith List Bool.
From Stdlib Require Import Sorted Permutation.
Import ListNotations.

#[local] Set Warnings "-inexact-float".

Open Scope R_scope.

(** ** Exceptions and results *)

Inductive exception : Type :=
| ZeroDivisionError
| UnboundLocalError
| AssertionError
| ValueError
| IndexError.

Inductive result (A : Type) : Type :=
| Ok (a : A)
| Raise (e : exception).

Arguments Ok {A} a.
Arguments Raise {A} e.

Definition bind {A B : Type} (m : result A) (k : A -> result B) : result B :=
  match m with
  | Ok a => k a
  | Raise e => Raise e
  end.

Notation "x <- m ;; k" := (bind m (fun x => k))
  (at level 61, m at next level, right associativity).
Notation "' p <- m ;; k" := (bind m (fun x => let p := x in k))
  (at level 61, p pattern, m at next level, right associativity).

(** [for _ in range(n): s = body(s)], stopping at the first exception. *)
Fixpoint for_range {St : Type} (n : nat) (body : nat -> St -> result St) (i : nat) (s : St)
  : result St :=
  match n with
  | O => Ok s
  | S k => s' <- body i s ;; for_range k body (S i) s'
  end.

(** ** The fragment of NumPy and of the Python builtins that the code uses *)

Module Np.

(** A one-dimensional [ndarray] of floats. *)
Definition ndarray : Type := list R.

(** [c + a] and [c * a] for a scalar [c] and an array [a]. *)
Definition scalar_add (c : R) (a : ndarray) : ndarray := map (fun v => c + v) a.
Definition scalar_mul (c : R) (a : ndarray) : ndarray := map (fun v => c * v) a.

(** [a - c] and [a / c] for an array [a] and a scalar [c]. *)
Definition sub_scalar (a : ndarray) (c : R) : ndarray := map (fun v => v - c) a.
Definition div_scalar (a : ndarray) (c : R) : ndarray := map (fun v => v / c) a.

(** Elementwise [a - b] on equal shapes. *)
Fixpoint zip_sub (a b : ndarray) : ndarray :=
  match a, b with
  | u :: a', v :: b' => (u - v) :: zip_sub a' b'
  | _, _ => []
  end.

(** [a - b] for two arrays, with NumPy's broadcasting of one-dimensional
    shapes: equal lengths go elementwise, a length-one operand is stretched,
    anything else raises [ValueError]. *)
Definition sub (a b : ndarray) : result ndarray :=
  if Nat.eqb (length a) (length b) then Ok (zip_sub a b)
  else match a, b with
       | [u], _ => Ok (map (fun v => u - v) b)
       | _, [v] => Ok (map (fun u => u - v) a)
       | _, _ => Raise ValueError
       end.

(** [a ** 2]. *)
Definition square (a : ndarray) : ndarray := map (fun v => v ^ 2) a.

(** [np.sum(a)]. *)
Definition sum (a : ndarray) : R := fold_right Rplus 0 a.

(** [len(a)] as a float. *)
Definition size (a : ndarray) : R := INR (length a).

(** [np.mean(a)]. *)
Definition mean (a : ndarray) : R := sum a / size a.

(** [np.std(a)]: the population standard deviation (ddof = 0). *)
Definition std (a : ndarray) : R := sqrt (mean (square (sub_scalar a (mean a)))).

(** [np.max(a)] and [np.min(a)]; both raise [ValueError] on an empty array. *)
Definition max (a : ndarray) : result R :=
  match a with
  | [] => Raise ValueError
  | v :: a' => Ok (fold_left Rmax a' v)
  end.

Definition min (a : ndarray) : result R :=
  match a with
  | [] => Raise ValueError
  | v :: a' => Ok (fold_left Rmin a' v)
  end.

(** [np.clip(v, lo, hi)] is [minimum(maximum(v, lo), hi)]; the bounds are not
    checked against each other. *)
Definition clip (v lo hi : R) : R := Rmin (Rmax v lo) hi.

(** [np.linspace(start, stop, num)] with the default [endpoint=True]. *)
Definition linspace (start stop : R) (num : Z) : result ndarray :=
  if (num <? 0)%Z then Raise ValueError
  else if (num =? 1)%Z then Ok [start]
  else
    let step := (stop - start) / IZR (num - 1) in
    Ok (map (fun k => start + INR k * step) (seq 0 (Z.to_nat num))).

(** A two-dimensional array, row by row. *)
Definition ndarray2 : Type := list (list R).

(** [np.meshgrid(xs, ys)] with the default [indexing='xy']: both results have
    [len(ys)] rows and [len(xs)] columns. *)
Definition meshgrid (xs ys : ndarray) : ndarray2 * ndarray2 :=
  (map (fun _ => xs) ys, map (fun y => map (fun _ => y) xs) ys).

(** [np.zeros_like(m)]. *)
Definition zeros_like (m : ndarray2) : ndarray2 := map (map (fun _ => 0)) m.

(** [m[i, j]], raising [IndexError] out of range (indices are never negative
    in the code below). *)
Definition get2 (m : ndarray2) (i j : nat) : result R :=
  match nth_error m i with
  | Some row => match nth_error row j with
                | Some v => Ok v
                | None => Raise IndexError
                end
  | None => Raise IndexError
  end.

Fixpoint set1 (row : list R) (j : nat) (v : R) : option (list R) :=
  match row, j with
  | [], _ => None
  | _ :: t, O => Some (v :: t)
  | h :: t, S j' => option_map (cons h) (set1 t j' v)
  end.

Fixpoint set_row (m : ndarray2) (i j : nat) (v : R) : option ndarray2 :=
  match m, i with
  | [], _ => None
  | row :: t, O => option_map (fun row' => row' :: t) (set1 row j v)
  | row :: t, S i' => option_map (cons row) (set_row t i' j v)
  end.

(** [m[i, j] = v], raising [IndexError] out of range. *)
Definition set2 (m : ndarray2) (i j : nat) (v : R) : result ndarray2 :=
  match set_row m i j v with
  | Some m' => Ok m'
  | None => Raise IndexError
  end.

End Np.

(** The builtin [max(a, b)]: the first argument unless the second is greater. *)
Definition py_max (a b : R) : R := if Rlt_dec a b then b else a.

(** [a[::step]] for a positive [step]: [skip] elements are passed over before
    the next one is kept. *)
Fixpoint stride_from {A : Type} (skip step : nat) (a : list A) : list A :=
  match a with
  | [] => []
  | v :: a' =>
      match skip with
      | O => v :: stride_from (step - 1) step a'
      | S skip' => stride_from skip' step a'
      end
  end.

Definition slice_step {A : Type} (a : list A) (step : Z) : list A :=
  stride_from 0 (Z.to_nat step) a.

(** ** monte_carlo_tips.py *)

(** [MonteCarloTipsSimulation.calculate_loss]. *)
Definition calculate_loss (b1 b2 : R) (x y : Np.ndarray) : result R :=
  let y_hat := Np.scalar_add b1 (Np.scalar_mul b2 x) in
  d <- Np.sub y y_hat ;;
  Ok (Np.sum (Np.square d)).

(** The same arithmetic on binary64 floats, for short arrays of equal length:
    every operation rounds as NumPy's does, and [np.sum] adds a short array
    from left to right. *)
Module Binary64.

(** [MonteCarloTipsSimulation.calculate_loss], which is also the body of
    [LinearRegressionSSEVisualizer._calculate_sse]. *)
Fixpoint zip_sub (a b : list float) : list float :=
  match a, b with
  | u :: a', v :: b' => PrimFloat.sub u v :: zip_sub a' b'
  | _, _ => []
  end.

Definition calculate_loss (b1 b2 : float) (x y : list float) : float :=
  let y_hat := map (fun v => PrimFloat.add b1 (PrimFloat.mul b2 v)) x in
  let d := zip_sub y y_hat in
  fold_left PrimFloat.add (map (fun v => PrimFloat.mul v v) d) 0%float.

(** [np.sum] of a short float64 array (fewer than eight entries): the entries
    are added from left to right. *)
Definition sum (a : list float) : float := fold_left PrimFloat.add a 0%float.

(** The number of entries as a float64, as [np.mean] divides by it. *)
Definition size (a : list float) : float :=
  fold_left (fun c _ => PrimFloat.add c 1%float) a 0%float.

Definition mean (a : list float) : float := PrimFloat.div (sum a) (size a).

(** [np.std]: the square root of the mean of the squared deviations from the
    mean. *)
Definition std (a : list float) : float :=
  let m := mean a in
  PrimFloat.sqrt
    (mean (map (fun v => PrimFloat.mul (PrimFloat.sub v m) (PrimFloat.sub v m)) a)).

(** What [LinearRegressionSSEVisualizer.__init__] stores when both true
    parameters are given. *)
Record Visualizer : Type := {
  x_data : list float;
  y_data : list float;
  true_bias : float;
  true_slope : float;
  true_sse : float
}.

(** [LinearRegressionSSEVisualizer.__init__] with both true parameters given,
    on float64 numbers. *)
Definition __init__ (x y : list float) (tb ts : float) (standardize : bool) : Visualizer :=
  if standardize then
    let xm := mean x in
    let xs := std x in
    let ym := mean y in
    let ys := std y in
    let x' := map (fun v => PrimFloat.div (PrimFloat.sub v xm) xs) x in
    let y' := map (fun v => PrimFloat.div (PrimFloat.sub v ym) ys) y in
    let tb' := PrimFloat.div (PrimFloat.sub (PrimFloat.add tb (PrimFloat.mul ts xm)) ym) ys in
    let ts' := PrimFloat.mul ts (PrimFloat.div xs ys) in
    {| x_data := x'; y_data := y'; true_bias := tb'; true_slope := ts';
       true_sse := calculate_loss tb' ts' x' y' |}
  else
    {| x_data := x; y_data := y; true_bias := tb; true_slope := ts;
       true_sse := calculate_loss tb ts x y |}.

End Binary64.

(** [if arg is None: arg = attr]. *)
Definition default_to {A : Type} (arg : option A) (attr : A) : A :=
  match arg with
  | None => attr
  | Some a => a
  end.

(** Python's true division [a / b] of two [int]s. *)
Definition py_truediv (a b : Z) : result R :=
  if (b =? 0)%Z then Raise ZeroDivisionError else Ok (IZR a / IZR b).

(** The interface of [numpy.random.Generator] that the simulation uses:
    [rng.uniform(low, high)] and [rng.normal(loc, scale)], each returning a
    deviate and the advanced generator when NumPy accepts the arguments. *)
Class Generator (RNG : Type) : Type := {
  uniform : R -> R -> RNG -> R * RNG;
  normal : R -> R -> RNG -> R * RNG
}.

(** The fields of a [MonteCarloTipsSimulation] that [run_simulation] reads:
    the dataset stored by [generate_data] and the generator. *)
Record MonteCarloTipsSimulation (RNG : Type) : Type := {
  order_totals : Np.ndarray;
  observed_tips : Np.ndarray;
  rng : RNG
}.

Arguments order_totals {RNG} _.
Arguments observed_tips {RNG} _.
Arguments rng {RNG} _.

Record SimulationResults : Type := {
  final_b1 : R;
  final_b2 : R;
  final_loss : R;
  acceptance_rate : R;
  b1_samples : list R;
  b2_samples : list R;
  loss_samples : list R
}.

(** The local variables of [run_simulation] that its loop reads and writes. *)
Record locals (RNG : Type) : Type := {
  l_b1 : R;
  l_b2 : R;
  l_current_loss : R;
  l_b1_samples : list R;
  l_b2_samples : list R;
  l_loss_samples : list R;
  l_n_accepted : Z;
  l_rng : RNG
}.

Arguments l_b1 {RNG} _.
Arguments l_b2 {RNG} _.
Arguments l_current_loss {RNG} _.
Arguments l_b1_samples {RNG} _.
Arguments l_b2_samples {RNG} _.
Arguments l_loss_samples {RNG} _.
Arguments l_n_accepted {RNG} _.
Arguments l_rng {RNG} _.

Section Search.

Context {RNG : Type} `{Generator RNG}.

(** [rng.normal(loc, scale)] with NumPy's check of its arguments: a negative
    [scale] raises [ValueError] and draws nothing. *)
Definition rng_normal (loc scale : R) (g : RNG) : result (R * RNG) :=
  if Rlt_dec scale 0 then Raise ValueError else Ok (normal loc scale g).

(** The proposal of one step: Gaussian noise on both parameters (five times
    wider on [b1]), then clipping into the bounds. *)
Definition propose (step_size : R) (b1_bounds b2_bounds : R * R) (b1 b2 : R) (g : RNG)
  : result (R * R * RNG) :=
  '(z1, g) <- rng_normal 0 (step_size * 5) g ;;
  let b1_new := b1 + z1 in
  '(z2, g) <- rng_normal 0 step_size g ;;
  let b2_new := b2 + z2 in
  let b1_new := Np.clip b1_new (fst b1_bounds) (snd b1_bounds) in
  let b2_new := Np.clip b2_new (fst b2_bounds) (snd b2_bounds) in
  Ok (b1_new, b2_new, g).

(** The body of [for _ in range(n_samples)]. *)
Definition search_step (step_size : R) (b1_bounds b2_bounds : R * R)
    (x y : Np.ndarray) (s : locals RNG) : result (locals RNG) :=
  '(b1_new, b2_new, g) <-
    propose step_size b1_bounds b2_bounds (l_b1 s) (l_b2 s) (l_rng s) ;;
  new_loss <- calculate_loss b1_new b2_new x y ;;
  let '(b1, b2, current_loss, n_accepted) :=
    if Rlt_dec new_loss (l_current_loss s)
    then (b1_new, b2_new, new_loss, (l_n_accepted s + 1)%Z)
    else (l_b1 s, l_b2 s, l_current_loss s, l_n_accepted s) in
  Ok {| l_b1 := b1;
        l_b2 := b2;
        l_current_loss := current_loss;
        l_b1_samples := l_b1_samples s ++ [b1];
        l_b2_samples := l_b2_samples s ++ [b2];
        l_loss_samples := l_loss_samples s ++ [current_loss];
        l_n_accepted := n_accepted;
        l_rng := g |}.

(** Lines 146-149: a starting parameter that the caller left out is drawn
    uniformly, [b1] from [0, 10] and [b2] from [0.05, 0.50]. *)
Definition initial_parameters (self : MonteCarloTipsSimulation RNG) (b1_init b2_init : option R)
  : R * R * RNG :=
  let g := rng self in
  let '(b1_init, g) :=
    match b1_init with
    | None => uniform 0 10 g
    | Some v => (v, g)
    end in
  let '(b2_init, g) :=
    match b2_init with
    | None => uniform 0.05 0.50 g
    | Some v => (v, g)
    end in
  (b1_init, b2_init, g).

(** [run_simulation] up to the end of its loop: the defaults, the initial loss,
    the one-entry trajectories, and [n_samples] steps. *)
Definition search_loop (self : MonteCarloTipsSimulation RNG) (n_samples : Z) (step_size : R)
    (b1_init b2_init : option R) (b1_bounds b2_bounds : R * R)
    (order_totals_arg observed_tips_arg : option Np.ndarray) : result (locals RNG) :=
  let '(b1_init, b2_init, g) := initial_parameters self b1_init b2_init in
  let x := default_to order_totals_arg (order_totals self) in
  let y := default_to observed_tips_arg (observed_tips self) in
  let b1 := b1_init in
  let b2 := b2_init in
  current_loss <- calculate_loss b1 b2 x y ;;
  for_range (Z.to_nat n_samples)
    (fun _ => search_step step_size b1_bounds b2_bounds x y) 0
    {| l_b1 := b1;
       l_b2 := b2;
       l_current_loss := current_loss;
       l_b1_samples := [b1];
       l_b2_samples := [b2];
       l_loss_samples := [current_loss];
       l_n_accepted := 0;
       l_rng := g |}.

(** [MonteCarloTipsSimulation.run_simulation]: the returned dictionary and the
    generator as the call leaves it. *)
Definition run_simulation (self : MonteCarloTipsSimulation RNG) (n_samples : Z) (step_size : R)
    (b1_init b2_init : option R) (b1_bounds b2_bounds : R * R)
    (order_totals_arg observed_tips_arg : option Np.ndarray)
  : result (SimulationResults * RNG) :=
  s <- search_loop self n_samples step_size b1_init b2_init b1_bounds b2_bounds
         order_totals_arg observed_tips_arg ;;
  rate <- py_truediv (l_n_accepted s) n_samples ;;
  Ok ({| final_b1 := l_b1 s;
         final_b2 := l_b2 s;
         final_loss := l_current_loss s;
         acceptance_rate := rate;
         b1_samples := l_b1_samples s;
         b2_samples := l_b2_samples s;
         loss_samples := l_loss_samples s |}, l_rng s).

End Search.

(** A generator for worked examples: it replays a fixed list of standard
    deviates, scaled and shifted as the draw asks, and returns the location
    once the list is used up. *)
#[export] Instance replay : Generator (list R) := {|
  uniform low high g :=
    match g with
    | [] => (low, [])
    | u :: g' => (low + (high - low) * u, g')
    end;
  normal loc scale g :=
    match g with
    | [] => (loc, [])
    | z :: g' => (loc + scale * z, g')
    end
|}.

(** ** linear_regression_sse_viz.py *)

(** The attributes of a [LinearRegressionSSEVisualizer].  The attributes that
    exist only after standardization ([standardized], [x_mean], ...) are absent
    ([false], [None]) otherwise. *)
Record LinearRegressionSSEVisualizer : Type := {
  x_data : Np.ndarray;
  y_data : Np.ndarray;
  true_bias : option R;
  true_slope : option R;
  standardized : bool;
  x_mean : option R;
  x_std : option R;
  y_mean : option R;
  y_std : option R;
  true_sse : option R;
  surface_min_bias : option R;
  surface_min_slope : option R;
  surface_min_sse : option R
}.

(** [LinearRegressionSSEVisualizer._calculate_sse]. *)
Definition _calculate_sse (self : LinearRegressionSSEVisualizer) (bias slope : R) : result R :=
  let y_pred := Np.scalar_add bias (Np.scalar_mul slope (x_data self)) in
  residuals <- Np.sub (y_data self) y_pred ;;
  Ok (Np.sum (Np.square residuals)).

(** The adjustment of the true parameters under standardization; it is made
    only when both are given. *)
Definition adjust_true (tb ts : option R) (xm xs ym ys : R) : option R * option R :=
  match tb, ts with
  | Some b, Some s => (Some ((b + s * xm - ym) / ys), Some (s * (xs / ys)))
  | _, _ => (tb, ts)
  end.

(** [LinearRegressionSSEVisualizer.__init__]. *)
Definition __init__ (x y : Np.ndarray) (tb ts : option R) (standardize : bool)
  : result LinearRegressionSSEVisualizer :=
  let self :=
    if standardize then
      let xm := Np.mean x in
      let xs := Np.std x in
      let ym := Np.mean y in
      let ys := Np.std y in
      let '(tb', ts') := adjust_true tb ts xm xs ym ys in
      {| x_data := Np.div_scalar (Np.sub_scalar x xm) xs;
         y_data := Np.div_scalar (Np.sub_scalar y ym) ys;
         true_bias := tb';
         true_slope := ts';
         standardized := true;
         x_mean := Some xm;
         x_std := Some xs;
         y_mean := Some ym;
         y_std := Some ys;
         true_sse := None;
         surface_min_bias := None;
         surface_min_slope := None;
         surface_min_sse := None |}
    else
      {| x_data := x;
         y_data := y;
         true_bias := tb;
         true_slope := ts;
         standardized := false;
         x_mean := None;
         x_std := None;
         y_mean := None;
         y_std := None;
         true_sse := None;
         surface_min_bias := None;
         surface_min_slope := None;
         surface_min_sse := None |} in
  sse <- match true_bias self, true_slope self with
         | Some b, Some s => v <- _calculate_sse self b s ;; Ok (Some v)
         | _, _ => Ok None
         end ;;
  Ok {| x_data := x_data self;
        y_data := y_data self;
        true_bias := true_bias self;
        true_slope := true_slope self;
        standardized := standardized self;
        x_mean := x_mean self;
        x_std := x_std self;
        y_mean := y_mean self;
        y_std := y_std self;
        true_sse := sse;
        surface_min_bias := None;
        surface_min_slope := None;
        surface_min_sse := None |}.

(** Reading a local variable that an untaken branch left unbound. *)
Definition read_local {A : Type} (v : option A) : result A :=
  match v with
  | Some a => Ok a
  | None => Raise UnboundLocalError
  end.

(** [assert v is not None]. *)
Definition assert_not_none {A : Type} (v : option A) : result A :=
  match v with
  | Some a => Ok a
  | None => Raise AssertionError
  end.

(** The data-driven slope heuristic: [(max(y) - min(y)) / (max(x) - min(x))]. *)
Definition slope_heuristic (self : LinearRegressionSSEVisualizer) : result R :=
  x_max <- Np.max (x_data self) ;;
  x_min <- Np.min (x_data self) ;;
  let x_range := x_max - x_min in
  y_max <- Np.max (y_data self) ;;
  y_min <- Np.min (y_data self) ;;
  let y_range := y_max - y_min in
  Ok (y_range / x_range).

(** The centre of the auto-detected bias range: the true bias if known,
    otherwise the mean of the targets. *)
Definition bias_center_of (self : LinearRegressionSSEVisualizer) : R :=
  match true_bias self with
  | Some b => b
  | None => Np.mean (y_data self)
  end.

(** The centre of the auto-detected slope range: the true slope if known,
    otherwise the data-driven heuristic. *)
Definition slope_center_of (self : LinearRegressionSSEVisualizer) : result R :=
  match true_slope self with
  | Some s => Ok s
  | None => slope_heuristic self
  end.

(** The two range-detection blocks of [calculate_sse_surface] (lines 118-141):
    the values of the locals [bias_range] and [slope_range] after them.  The
    locals [bias_center] and [scope] are bound by the first block only, that
    is only when [bias_range] is [None]. *)
Definition detect_ranges (self : LinearRegressionSSEVisualizer)
    (bias_range slope_range : option (R * R)) (scale_factor : R)
  : result (option (R * R) * option (R * R)) :=
  let '(bias_center, scope) :=
    match bias_range with
    | None =>
        let bias_center := bias_center_of self in
        (Some bias_center, Some (Rabs bias_center * scale_factor))
    | Some _ => (None, None)
    end in
  match slope_range with
  | None =>
      slope_center <- slope_center_of self ;;
      let slope_scope := Rabs slope_center * scale_factor in
      scope0 <- read_local scope ;;
      let scope := py_max scope0 slope_scope in
      let slope_range := Some (slope_center - scope, slope_center + scope) in
      match bias_range with
      | None =>
          bias_center <- read_local bias_center ;;
          Ok (Some (bias_center - scope, bias_center + scope), slope_range)
      | Some _ => Ok (bias_range, slope_range)
      end
  | Some _ => Ok (bias_range, slope_range)
  end.

(** The double loop filling [sse_mesh]. *)
Definition fill_sse (self : LinearRegressionSSEVisualizer) (resolution : Z)
    (bias_mesh slope_mesh sse_mesh : Np.ndarray2) : result Np.ndarray2 :=
  for_range (Z.to_nat resolution)
    (fun i m =>
       for_range (Z.to_nat resolution)
         (fun j m =>
            b <- Np.get2 bias_mesh i j ;;
            s <- Np.get2 slope_mesh i j ;;
            v <- _calculate_sse self b s ;;
            Np.set2 m i j v)
         0%nat m)
    0%nat sse_mesh.

(** [LinearRegressionSSEVisualizer.calculate_sse_surface]. *)
Definition calculate_sse_surface (self : LinearRegressionSSEVisualizer)
    (bias_range slope_range : option (R * R)) (resolution : Z) (scale_factor : R)
  : result (Np.ndarray2 * Np.ndarray2 * Np.ndarray2) :=
  '(bias_range, slope_range) <- detect_ranges self bias_range slope_range scale_factor ;;
  bias_range <- assert_not_none bias_range ;;
  slope_range <- assert_not_none slope_range ;;
  bias_vals <- Np.linspace (fst bias_range) (snd bias_range) resolution ;;
  slope_vals <- Np.linspace (fst slope_range) (snd slope_range) resolution ;;
  let '(bias_mesh, slope_mesh) := Np.meshgrid bias_vals slope_vals in
  let sse_mesh := Np.zeros_like bias_mesh in
  sse_mesh <- fill_sse self resolution bias_mesh slope_mesh sse_mesh ;;
  Ok (bias_mesh, slope_mesh, sse_mesh).

(** The part of a [go.Scatter3d] trace that carries data: its name, its mode,
    the three coordinate sequences and the marker colour (a colour name, or one
    number per point for a gradient). *)
Inductive marker_color : Type :=
| ColorName (c : string)
| ColorScale (c : list R).

Record Scatter3d : Type := {
  name : string;
  mode : string;
  xs : list R;
  ys : list R;
  zs : list R;
  marker_size : Z;
  color : marker_color
}.

(** [a[0]] and [a[-1]]. *)
Definition first (a : list R) : result R :=
  match a with
  | [] => Raise IndexError
  | v :: _ => Ok v
  end.

Definition final (a : list R) : result R :=
  match a with
  | [] => Raise IndexError
  | v :: a' => Ok (last a' v)
  end.

(** The stride of the path layer: [max(1, len(bias_samples) // 1000)]. *)
Definition path_step (bias_samples : list R) : Z :=
  Z.max 1 (Z.of_nat (length bias_samples) / 1000).

(** [LinearRegressionSSEVisualizer._add_optimization_trace]: the traces of the
    figure after the three [fig.add_trace] calls. *)
Definition _add_optimization_trace (fig : list Scatter3d)
    (bias_samples slope_samples loss_samples : list R) : result (list Scatter3d) :=
  let step := path_step bias_samples in
  let bias_sub := slice_step bias_samples step in
  let slope_sub := slice_step slope_samples step in
  let loss_sub := slice_step loss_samples step in
  colors <- Np.linspace 0 1 (Z.of_nat (length bias_sub)) ;;
  let fig := fig ++ [ {| name := "Optimization Path";
                         mode := "markers+lines";
                         xs := bias_sub;
                         ys := slope_sub;
                         zs := loss_sub;
                         marker_size := 3;
                         color := ColorScale colors |} ] in
  x0 <- first bias_samples ;;
  y0 <- first slope_samples ;;
  z0 <- first loss_samples ;;
  let fig := fig ++ [ {| name := "Start Point";
                         mode := "markers";
                         xs := [x0];
                         ys := [y0];
                         zs := [z0];
                         marker_size := 8;
                         color := ColorName "red" |} ] in
  x1 <- final bias_samples ;;
  y1 <- final slope_samples ;;
  z1 <- final loss_samples ;;
  Ok (fig ++ [ {| name := "End Point";
                  mode := "markers";
                  xs := [x1];
                  ys := [y1];
                  zs := [z1];
                  marker_size := 8;
                  color := ColorName "blue" |} ]).

(** ** Notions used to state the properties *)

(** A trajectory whose every entry is at most its predecessor. *)
Definition non_increasing (l : list R) : Prop :=
  forall i, (S i < length l)%nat -> nth (S i) l 0 <= nth i l 0.

(** A value that [np.clip] produced for the bounds [(lo, hi)]. *)
Definition clipped (bounds : R * R) (v : R) : Prop :=
  exists u, v = Np.clip u (fst bounds) (snd bounds).

(** The state of the search after [k] steps from [(b1_0, b2_0, loss_0)]:
    the trajectories have [k + 1] entries, the last one is the current state,
    the loss never goes up, the accepted-step counter is between 0 and [k], and
    every entry is either the starting point (with the starting loss) or a
    clipped proposal of strictly smaller loss. *)
Record search_inv {RNG : Type} (b1_bounds b2_bounds : R * R) (b1_0 b2_0 loss_0 : R) (k : nat)
    (s : locals RNG) : Prop := {
  inv_len_b1 : length (l_b1_samples s) = S k;
  inv_len_b2 : length (l_b2_samples s) = S k;
  inv_len_loss : length (l_loss_samples s) = S k;
  inv_last_b1 : nth k (l_b1_samples s) 0 = l_b1 s;
  inv_last_b2 : nth k (l_b2_samples s) 0 = l_b2 s;
  inv_last_loss : nth k (l_loss_samples s) 0 = l_current_loss s;
  inv_first_b1 : nth 0 (l_b1_samples s) 0 = b1_0;
  inv_first_b2 : nth 0 (l_b2_samples s) 0 = b2_0;
  inv_first_loss : nth 0 (l_loss_samples s) 0 = loss_0;
  inv_mono : non_increasing (l_loss_samples s);
  inv_accepted : (0 <= l_n_accepted s <= Z.of_nat k)%Z;
  inv_entries : forall i, (i <= k)%nat ->
    (nth i (l_b1_samples s) 0 = b1_0 /\ nth i (l_b2_samples s) 0 = b2_0 /\
     nth i (l_loss_samples s) 0 = loss_0)
    \/
    (nth i (l_loss_samples s) 0 < loss_0 /\
     clipped b1_bounds (nth i (l_b1_samples s) 0) /\
     clipped b2_bounds (nth i (l_b2_samples s) 0))
}.

(** An array of [r] rows and [c] columns. *)
Definition shape (r c : nat) (m : Np.ndarray2) : Prop :=
  length m = r /\ forall i row, nth_error m i = Some row -> length row = c.

(** The sum over the whole dataset of [(target - (bias + slope * feature))^2]. *)
Definition sse_of_dataset (data : list (R * R)) (bias slope : R) : R :=
  fold_right (fun p acc => (snd p - (bias + slope * fst p)) ^ 2 + acc) 0 data.

(** ** monte_carlo_tips.py: the data generation *)

(** [np.sort(a)], ascending, by insertion. *)
Fixpoint np_insert (v : R) (a : Np.ndarray) : Np.ndarray :=
  match a with
  | [] => [v]
  | u :: a' => if Rle_dec v u then v :: u :: a' else u :: np_insert v a'
  end.

Fixpoint np_sort (a : Np.ndarray) : Np.ndarray :=
  match a with
  | [] => []
  | v :: a' => np_insert v (np_sort a')
  end.

(** Elementwise [a + b] on equal shapes. *)
Fixpoint zip_add (a b : Np.ndarray) : Np.ndarray :=
  match a, b with
  | u :: a', v :: b' => (u + v) :: zip_add a' b'
  | _, _ => []
  end.

(** [a + b] for two arrays, with the same broadcasting as [Np.sub]. *)
Definition np_add (a b : Np.ndarray) : result Np.ndarray :=
  if Nat.eqb (length a) (length b) then Ok (zip_add a b)
  else match a, b with
       | [u], _ => Ok (map (fun v => u + v) b)
       | _, [v] => Ok (map (fun u => u + v) a)
       | _, _ => Raise ValueError
       end.

(** [np.maximum(c, a)] for a scalar [c]. *)
Definition np_maximum (c : R) (a : Np.ndarray) : Np.ndarray := map (Rmax c) a.

(** The rest of the generator interface, used by the constructor:
    [np.random.default_rng(seed)], [rng.uniform(low, high, size)] and
    [rng.normal(loc, scale, size)].  An array draw may raise (NumPy validates
    its arguments); all that is known of one that returns is NumPy's shape
    contract: the array has [size] elements. *)
Class ArrayGenerator (RNG : Type) : Type := {
  default_rng : Z -> RNG;
  uniform_array : R -> R -> Z -> RNG -> result (Np.ndarray * RNG);
  normal_array : R -> R -> Z -> RNG -> result (Np.ndarray * RNG);
  uniform_array_size : forall low high size g a g',
    uniform_array low high size g = Ok (a, g') -> Z.of_nat (length a) = size;
  normal_array_size : forall loc scale size g a g',
    normal_array loc scale size g = Ok (a, g') -> Z.of_nat (length a) = size
}.

(** All the attributes of a [MonteCarloTipsSimulation]. *)
Record TipsSimulation (RNG : Type) : Type := {
  sim_n_customers : Z;
  sim_true_b1 : R;
  sim_true_b2 : R;
  sim_noise_std : R;
  sim_order_min : R;
  sim_order_max : R;
  sim_rng : RNG;
  sim_order_totals : Np.ndarray;
  sim_true_tips : Np.ndarray;
  sim_observed_tips : Np.ndarray
}.

Arguments sim_n_customers {RNG} _.
Arguments sim_true_b1 {RNG} _.
Arguments sim_true_b2 {RNG} _.
Arguments sim_noise_std {RNG} _.
Arguments sim_order_min {RNG} _.
Arguments sim_order_max {RNG} _.
Arguments sim_rng {RNG} _.
Arguments sim_order_totals {RNG} _.
Arguments sim_true_tips {RNG} _.
Arguments sim_observed_tips {RNG} _.

(** The attributes that [run_simulation] reads. *)
Definition as_simulation {RNG : Type} (self : TipsSimulation RNG) : MonteCarloTipsSimulation RNG :=
  {| order_totals := sim_order_totals self;
     observed_tips := sim_observed_tips self;
     rng := sim_rng self |}.

Section DataGeneration.

Context {RNG : Type} `{ArrayGenerator RNG}.

(** [MonteCarloTipsSimulation.generate_data], from the attributes that
    [__init__] has set: the three arrays and the generator after the two draws. *)
Definition generate_data (n_customers : Z) (true_b1 true_b2 noise_std order_min order_max : R)
    (g : RNG) : result (Np.ndarray * Np.ndarray * Np.ndarray * RNG) :=
  '(totals, g) <- uniform_array order_min order_max n_customers g ;;
  let order_totals := np_sort totals in
  let true_tips := Np.scalar_add true_b1 (Np.scalar_mul true_b2 order_totals) in
  '(noise, g) <- normal_array 0 noise_std n_customers g ;;
  noisy <- np_add true_tips noise ;;
  let observed_tips := np_maximum 0 noisy in
  Ok (order_totals, true_tips, observed_tips, g).

(** [MonteCarloTipsSimulation.__init__]. *)
Definition MonteCarloTipsSimulation_init (n_customers : Z)
    (true_b1 true_b2 noise_std order_min order_max : R) (seed : Z)
  : result (TipsSimulation RNG) :=
  let g := default_rng seed in
  '(order_totals, true_tips, observed_tips, g) <-
    generate_data n_customers true_b1 true_b2 noise_std order_min order_max g ;;
  Ok {| sim_n_customers := n_customers;
        sim_true_b1 := true_b1;
        sim_true_b2 := true_b2;
        sim_noise_std := noise_std;
        sim_order_min := order_min;
        sim_order_max := order_max;
        sim_rng := g;
        sim_order_totals := order_totals;
        sim_true_tips := true_tips;
        sim_observed_tips := observed_tips |}.

End DataGeneration.

(** An array generator for worked examples, on the same replayed list as
    [replay]: a draw of [size] values takes the next [size] deviates (zeros
    once the list is used up) and raises [ValueError] for a negative [size];
    the seed is the first deviate, in hundredths. *)
Definition replay_draw (n : nat) (g : list R) : list R * list R :=
  (firstn n (g ++ repeat 0 n), skipn n g).

#[export, refine] Instance replay_arrays : ArrayGenerator (list R) := {|
  default_rng seed := [IZR seed / 100; 0; -10; 0];
  uniform_array low high size g :=
    if (size <? 0)%Z then Raise ValueError
    else Ok (map (fun u => low + (high - low) * u) (fst (replay_draw (Z.to_nat size) g)),
             snd (replay_draw (Z.to_nat size) g));
  normal_array loc scale size g :=
    if (size <? 0)%Z then Raise ValueError
    else Ok (map (fun z => loc + scale * z) (fst (replay_draw (Z.to_nat size) g)),
             snd (replay_draw (Z.to_nat size) g))
|}.
Proof.
  - intros low high size g a g'. destruct (Z.ltb_spec size 0) as [|Hs]; [discriminate|].
    intros E. injection E as <- _. simpl.
    rewrite length_map, length_firstn, length_app, repeat_length. lia.
  - intros loc scale size g a g'. destruct (Z.ltb_spec size 0) as [|Hs]; [discriminate|].
    intros E. injection E as <- _. simpl.
    rewrite length_map, length_firstn, length_app, repeat_length. lia.
Defined.

(** ** linear_regression_sse_viz.py: the figure *)

(** [np.argmin(a)] on a flat array: the first index of the smallest element;
    [ValueError] on an empty array. *)
Fixpoint argmin_from (best_i : nat) (best : R) (i : nat) (a : list R) : nat :=
  match a with
  | [] => best_i
  | v :: a' =>
      if Rlt_dec v best then argmin_from i v (S i) a' else argmin_from best_i best (S i) a'
  end.

Definition np_argmin (a : list R) : result nat :=
  match a with
  | [] => Raise ValueError
  | v :: a' => Ok (argmin_from 0 v 1 a')
  end.

(** [m.shape] of a two-dimensional array. *)
Definition shape_of (m : Np.ndarray2) : nat * nat := (length m, length (hd [] m)).

(** [np.unravel_index(k, (rows, cols))] in row-major order. *)
Definition unravel_index (k : nat) (shp : nat * nat) : nat * nat :=
  (k / snd shp, k mod snd shp)%nat.

(** The part of a [go.Surface] trace that carries data. *)
Record Surface : Type := {
  surface_x : Np.ndarray2;
  surface_y : Np.ndarray2;
  surface_z : Np.ndarray2;
  surface_colorscale : string;
  surface_contours : bool
}.

(** A figure: the surface it was created with, the scatter traces added after
    it in order, and the title and the size of its layout. *)
Record Figure : Type := {
  fig_surface : Surface;
  fig_traces : list Scatter3d;
  fig_title : string;
  fig_width : Z;
  fig_height : Z
}.

(** The visualizer after an assignment to its three [surface_min_*]
    attributes. *)
Definition set_surface_min (self : LinearRegressionSSEVisualizer) (b s v : R)
  : LinearRegressionSSEVisualizer :=
  {| x_data := x_data self;
     y_data := y_data self;
     true_bias := true_bias self;
     true_slope := true_slope self;
     standardized := standardized self;
     x_mean := x_mean self;
     x_std := x_std self;
     y_mean := y_mean self;
     y_std := y_std self;
     true_sse := true_sse self;
     surface_min_bias := Some b;
     surface_min_slope := Some s;
     surface_min_sse := Some v |}.

(** [LinearRegressionSSEVisualizer._add_minima_markers]: the scatter traces of
    the figure after the call. *)
Definition _add_minima_markers (self : LinearRegressionSSEVisualizer) (fig : list Scatter3d)
  : result (list Scatter3d) :=
  let fig :=
    match true_bias self, true_slope self, true_sse self with
    | Some b, Some s, Some v =>
        fig ++ [ {| name := "True Minimum"; mode := "markers";
                    xs := [b]; ys := [s]; zs := [v];
                    marker_size := 10; color := ColorName "gold" |} ]
    | _, _, _ => fig
    end in
  match surface_min_bias self, surface_min_slope self, surface_min_sse self with
  | Some b, Some s, Some v =>
      Ok (fig ++ [ {| name := "Surface Minimum"; mode := "markers";
                      xs := [b]; ys := [s]; zs := [v];
                      marker_size := 10; color := ColorName "limegreen" |} ])
  | _, _, _ => Raise AssertionError
  end.

(** [LinearRegressionSSEVisualizer.create_3d_surface_plot]: the figure and the
    visualizer with its surface minimum set. *)
Definition create_3d_surface_plot (self : LinearRegressionSSEVisualizer)
    (bias_samples slope_samples loss_samples : option (list R))
    (bias_range slope_range : option (R * R)) (resolution : Z)
    (colorscale title : string) (scale_factor : R) (show_contours : bool)
  : result (Figure * LinearRegressionSSEVisualizer) :=
  '(bias_mesh, slope_mesh, sse_mesh) <-
    calculate_sse_surface self bias_range slope_range resolution scale_factor ;;
  flat <- np_argmin (concat sse_mesh) ;;
  let '(i, j) := unravel_index flat (shape_of sse_mesh) in
  min_bias <- Np.get2 bias_mesh i j ;;
  min_slope <- Np.get2 slope_mesh i j ;;
  min_sse <- Np.min (concat sse_mesh) ;;
  let self := set_surface_min self min_bias min_slope min_sse in
  let surface :=
    {| surface_x := bias_mesh;
       surface_y := slope_mesh;
       surface_z := sse_mesh;
       surface_colorscale := colorscale;
       surface_contours := show_contours |} in
  traces <- match bias_samples, slope_samples, loss_samples with
            | Some b, Some s, Some l => _add_optimization_trace [] b s l
            | _, _, _ => Ok []
            end ;;
  traces <- _add_minima_markers self traces ;;
  Ok ({| fig_surface := surface;
         fig_traces := traces;
         fig_title := title;
         fig_width := 800;
         fig_height := 600 |}, self).

(** ** Further notions used to state the properties *)

(** The number of steps at which a trajectory goes strictly down. *)
Fixpoint count_decreases (l : list R) : Z :=
  match l with
  | u :: (v :: _) as l' => ((if Rlt_dec v u then 1 else 0) + count_decreases l')%Z
  | _ => 0%Z
  end.

(** Two one-dimensional shapes that broadcast against each other. *)
Definition broadcastable (n m : nat) : Prop := n = m \/ n = 1%nat \/ m = 1%nat.

(** An array in ascending order. *)
Definition ascending (a : Np.ndarray) : Prop :=
  forall i j, (i <= j < length a)%nat -> nth i a 0 <= nth j a 0.

(** What the search keeps besides [search_inv], on the data [(x, y)]: the
    accepted-step counter is the number of strict decreases of the loss
    trajectory, and every recorded loss is the loss of the parameters recorded
    with it. *)
Record search_consistent {RNG : Type} (x y : Np.ndarray) (k : nat) (s : locals RNG)
  : Prop := {
  cons_count : l_n_accepted s = count_decreases (l_loss_samples s);
  cons_loss : forall i, (i <= k)%nat ->
    calculate_loss (nth i (l_b1_samples s) 0) (nth i (l_b2_samples s) 0) x y
    = Ok (nth i (l_loss_samples s) 0)
}.

(** * Properties *)

(** ** The result monad and the loop combinator *)

Lemma bind_Ok_inv {A B : Type} (m : result A) (k : A -> result B) (b : B) :
  bind m k = Ok b -> exists a, m = Ok a /\ k a = Ok b.
Proof.
  destruct m as [a|e]; simpl; intros E; [exists a; split; trivial | discriminate].
Qed.

Lemma for_range_invariant {St : Type} (P : nat -> St -> Prop) (body : nat -> St -> result St) :
  (forall i s s', P i s -> body i s = Ok s' -> P (S i) s') ->
  forall n i s s', P i s -> for_range n body i s = Ok s' -> P (n + i)%nat s'.
Proof.
  intros Hbody. induction n as [|n IH]; intros i s s' HP E; simpl in E.
  - injection E as <-. exact HP.
  - apply bind_Ok_inv in E as (s1 & E1 & E2).
    replace (S n + i)%nat with (n + S i)%nat by lia.
    eapply IH; [|exact E2]. eapply Hbody; eassumption.
Qed.

Lemma for_range_returns {St : Type} (P : St -> Prop) (body : nat -> St -> result St) :
  (forall i s, P s -> exists s', body i s = Ok s' /\ P s') ->
  forall n i s, P s -> exists s', for_range n body i s = Ok s'.
Proof.
  intros Hbody. induction n as [|n IH]; intros i s HP; simpl.
  - eauto.
  - destruct (Hbody i s HP) as (s1 & -> & HP1). simpl. apply IH, HP1.
Qed.

Lemma for_range_bounded {St : Type} (P : nat -> St -> Prop) (body : nat -> St -> result St)
    (hi : nat) :
  (forall i s, (i < hi)%nat -> P i s -> exists s', body i s = Ok s' /\ P (S i) s') ->
  forall n i s, (n + i <= hi)%nat -> P i s ->
                exists s', for_range n body i s = Ok s' /\ P (n + i)%nat s'.
Proof.
  intros Hbody. induction n as [|n IH]; intros i s Hle HP; simpl.
  - eauto.
  - destruct (Hbody i s ltac:(lia) HP) as (s1 & -> & HP1). simpl.
    destruct (IH (S i) s1 ltac:(lia) HP1) as (s' & E & HP').
    exists s'. split; [exact E|]. replace (S (n + i)) with (n + S i)%nat by lia. exact HP'.
Qed.

(** ** The sum of squared errors *)



Lemma sub_equal_length (a b : Np.ndarray) :
  length a = length b -> Np.sub a b = Ok (Np.zip_sub a b).
Proof.
  intros E. unfold Np.sub. rewrite E, Nat.eqb_refl. reflexivity.
Qed.


Lemma calculate_loss_equal_length (b1 b2 : R) (x y : Np.ndarray) :
  length x = length y ->
  calculate_loss b1 b2 x y
  = Ok (Np.sum (Np.square (Np.zip_sub y (Np.scalar_add b1 (Np.scalar_mul b2 x))))).
Proof.
  intros E. unfold calculate_loss. rewrite sub_equal_length; [reflexivity|].
  unfold Np.scalar_add, Np.scalar_mul. rewrite !length_map. symmetry. exact E.
Qed.

Lemma _calculate_sse_is_loss (self : LinearRegressionSSEVisualizer) (bias slope : R) :
  _calculate_sse self bias slope = calculate_loss bias slope (x_data self) (y_data self).
Proof. reflexivity. Qed.





(** C9.  The worked example: three customers, [b1 = 0.5], [b2 = 0.15]; the
    predictions are 0.95, 2.0 and 4.25, the squared residuals 0.0025, 0 and
    0.0625, and the loss is 0.065.  The binary64 evaluation of the same call
    returns the float written [0.065] as well. *)
Theorem calculate_loss_example :
  Np.scalar_add 0.5 (Np.scalar_mul 0.15 [3; 10; 25]) = [0.95; 2.0; 4.25] /\
  (forall d, Np.sub [1.0; 2.0; 4.0] [0.95; 2.0; 4.25] = Ok d ->
             Np.square d = [0.0025; 0; 0.0625]) /\
  calculate_loss 0.5 0.15 [3; 10; 25] [1.0; 2.0; 4.0] = Ok 0.065 /\
  Binary64.calculate_loss 0.5 0.15 [3; 10; 25]%float [1; 2; 4]%float = 0.065%float.
Proof.
  split; [|split; [|split]].
  - simpl. repeat (f_equal; try lra).
  - intros d E. injection E as <-. simpl. repeat (f_equal; try lra).
  - unfold calculate_loss. simpl. f_equal. lra.
  - vm_compute. reflexivity.
Qed.

(** ** The stochastic search *)

(** Whether [calculate_loss] raises depends on the shapes of the data only. *)
Lemma calculate_loss_shape (b1 b2 b1' b2' : R) (x y : Np.ndarray) (loss : R) :
  calculate_loss b1 b2 x y = Ok loss -> exists loss', calculate_loss b1' b2' x y = Ok loss'.
Proof.
  unfold calculate_loss, Np.sub, Np.scalar_add, Np.scalar_mul.
  rewrite !length_map.
  destruct (Nat.eqb (length y) (length x)); [simpl; eauto|].
  destruct y as [|v [|w y]]; destruct x as [|u [|t x]]; simpl; try discriminate; eauto.
Qed.

Lemma clipped_in_bounds (bounds : R * R) (v : R) :
  fst bounds <= snd bounds -> clipped bounds v -> fst bounds <= v <= snd bounds.
Proof.
  intros Hb [u ->]. unfold Np.clip, Rmin, Rmax.
  destruct (Rle_dec u (fst bounds)); destruct (Rle_dec _ (snd bounds)); lra.
Qed.

Section SearchFacts.

Context {RNG : Type} `{Generator RNG}.

Variables (step_size : R) (b1_bounds b2_bounds : R * R) (x y : Np.ndarray).

Lemma propose_inv (b1 b2 : R) (g : RNG) (b1_new b2_new : R) (g' : RNG) :
  propose step_size b1_bounds b2_bounds b1 b2 g = Ok (b1_new, b2_new, g') ->
  0 <= step_size /\
  b1_new = Np.clip (b1 + fst (normal 0 (step_size * 5) g)) (fst b1_bounds) (snd b1_bounds) /\
  b2_new = Np.clip (b2 + fst (normal 0 step_size (snd (normal 0 (step_size * 5) g))))
             (fst b2_bounds) (snd b2_bounds) /\
  g' = snd (normal 0 step_size (snd (normal 0 (step_size * 5) g))).
Proof.
  unfold propose, rng_normal.
  destruct (Rlt_dec (step_size * 5) 0) as [|H5]; [discriminate|].
  destruct (normal 0 (step_size * 5) g) as [z1 g1]. simpl.
  destruct (Rlt_dec step_size 0) as [|H1]; [discriminate|].
  destruct (normal 0 step_size g1) as [z2 g2]. simpl.
  intros E. injection E as <- <- <-. repeat split. lra.
Qed.

Lemma propose_returns (b1 b2 : R) (g : RNG) :
  0 <= step_size ->
  exists b1_new b2_new g',
    propose step_size b1_bounds b2_bounds b1 b2 g = Ok (b1_new, b2_new, g').
Proof.
  intros Hs. unfold propose, rng_normal.
  destruct (Rlt_dec (step_size * 5) 0) as [H5|_]; [lra|].
  destruct (normal 0 (step_size * 5) g) as [z1 g1]. simpl.
  destruct (Rlt_dec step_size 0) as [H1|_]; [lra|].
  destruct (normal 0 step_size g1) as [z2 g2]. simpl. eauto.
Qed.

Lemma propose_raises (b1 b2 : R) (g : RNG) :
  step_size < 0 -> propose step_size b1_bounds b2_bounds b1 b2 g = Raise ValueError.
Proof.
  intros Hs. unfold propose, rng_normal.
  destruct (Rlt_dec (step_size * 5) 0) as [_|H5]; [reflexivity | lra].
Qed.

Lemma propose_clipped (b1 b2 : R) (g : RNG) (b1_new b2_new : R) (g' : RNG) :
  propose step_size b1_bounds b2_bounds b1 b2 g = Ok (b1_new, b2_new, g') ->
  clipped b1_bounds b1_new /\ clipped b2_bounds b2_new.
Proof.
  intros E. destruct (propose_inv _ _ _ _ _ _ E) as (_ & -> & -> & _).
  split; eexists; reflexivity.
Qed.

(** One step either accepts a strictly better proposal or leaves the state as
    it was; in both cases it appends the current state to the trajectories. *)
Lemma search_step_cases (s s' : locals RNG) :
  search_step step_size b1_bounds b2_bounds x y s = Ok s' ->
  exists b1_new b2_new g new_loss,
    propose step_size b1_bounds b2_bounds (l_b1 s) (l_b2 s) (l_rng s)
    = Ok (b1_new, b2_new, g) /\
    calculate_loss b1_new b2_new x y = Ok new_loss /\
    l_rng s' = g /\
    l_b1_samples s' = l_b1_samples s ++ [l_b1 s'] /\
    l_b2_samples s' = l_b2_samples s ++ [l_b2 s'] /\
    l_loss_samples s' = l_loss_samples s ++ [l_current_loss s'] /\
    ((new_loss < l_current_loss s /\
      l_b1 s' = b1_new /\ l_b2 s' = b2_new /\ l_current_loss s' = new_loss /\
      l_n_accepted s' = (l_n_accepted s + 1)%Z)
     \/
     (~ new_loss < l_current_loss s /\
      l_b1 s' = l_b1 s /\ l_b2 s' = l_b2 s /\ l_current_loss s' = l_current_loss s /\
      l_n_accepted s' = l_n_accepted s)).
Proof.
  unfold search_step.
  intros E. apply bind_Ok_inv in E as ([[b1_new b2_new] g] & Ep & E). cbv zeta in E.
  apply bind_Ok_inv in E as (new_loss & El & E).
  exists b1_new, b2_new, g, new_loss. split; [exact Ep|].
  destruct (Rlt_dec new_loss (l_current_loss s)) as [Hlt|Hge];
    injection E as <-; simpl; repeat (split; [reflexivity || assumption|]).
  - left. repeat split; trivial.
  - right. repeat split; trivial.
Qed.

Lemma search_step_returns (s : locals RNG) (b1 b2 loss : R) :
  0 <= step_size ->
  calculate_loss b1 b2 x y = Ok loss ->
  exists s', search_step step_size b1_bounds b2_bounds x y s = Ok s'.
Proof.
  intros Hs E. unfold search_step.
  destruct (propose_returns (l_b1 s) (l_b2 s) (l_rng s) Hs) as (b1_new & b2_new & g & ->).
  simpl.
  destruct (calculate_loss_shape b1 b2 b1_new b2_new x y loss E) as [new_loss ->].
  simpl. destruct (Rlt_dec _ _); eauto.
Qed.

Lemma search_step_raises (s : locals RNG) :
  step_size < 0 -> search_step step_size b1_bounds b2_bounds x y s = Raise ValueError.
Proof.
  intros Hs. unfold search_step. rewrite propose_raises by exact Hs. reflexivity.
Qed.

Lemma nth_snoc_last (l : list R) (v : R) (k : nat) :
  length l = k -> nth k (l ++ [v]) 0 = v.
Proof. intros <-. rewrite app_nth2, Nat.sub_diag; [reflexivity | lia]. Qed.

Lemma nth_snoc_before (l : list R) (v : R) (i : nat) :
  (i < length l)%nat -> nth i (l ++ [v]) 0 = nth i l 0.
Proof. intros Hi. apply app_nth1, Hi. Qed.

Lemma search_inv_init (b1_0 b2_0 loss_0 : R) (g : RNG) :
  search_inv b1_bounds b2_bounds b1_0 b2_0 loss_0 0
    {| l_b1 := b1_0; l_b2 := b2_0; l_current_loss := loss_0;
       l_b1_samples := [b1_0]; l_b2_samples := [b2_0]; l_loss_samples := [loss_0];
       l_n_accepted := 0; l_rng := g |}.
Proof.
  constructor; simpl; try reflexivity; try lia.
  - intros i Hi. simpl in Hi. lia.
  - intros i Hi. replace i with 0%nat by lia. left. auto.
Qed.

Lemma search_inv_step (b1_0 b2_0 loss_0 : R) (k : nat) (s s' : locals RNG) :
  search_inv b1_bounds b2_bounds b1_0 b2_0 loss_0 k s ->
  search_step step_size b1_bounds b2_bounds x y s = Ok s' ->
  search_inv b1_bounds b2_bounds b1_0 b2_0 loss_0 (S k) s'.
Proof.
  intros I E.
  destruct (search_step_cases s s' E)
    as (b1_new & b2_new & g & new_loss & Ep & El & _ & Eb1 & Eb2 & Eloss & Hcase).
  destruct (propose_clipped _ _ _ _ _ _ Ep) as [Hc1 Hc2].
  destruct I as [L1 L2 L3 T1 T2 T3 F1 F2 F3 M A Hent].
  assert (Hle : l_current_loss s' <= l_current_loss s)
    by (destruct Hcase as [(? & _ & _ & -> & _) | (_ & _ & _ & -> & _)]; lra).
  assert (Hdown : l_current_loss s <= loss_0).
  { destruct (Hent k (Nat.le_refl k)) as [(_ & _ & E0) | (Hlt & _)];
      rewrite T3 in *; lra. }
  constructor.
  - rewrite Eb1, length_app, L1. simpl. lia.
  - rewrite Eb2, length_app, L2. simpl. lia.
  - rewrite Eloss, length_app, L3. simpl. lia.
  - rewrite Eb1 at 1. apply nth_snoc_last, L1.
  - rewrite Eb2 at 1. apply nth_snoc_last, L2.
  - rewrite Eloss at 1. apply nth_snoc_last, L3.
  - rewrite Eb1, nth_snoc_before by lia. exact F1.
  - rewrite Eb2, nth_snoc_before by lia. exact F2.
  - rewrite Eloss, nth_snoc_before by lia. exact F3.
  - intros i Hi. rewrite Eloss in *. rewrite length_app, L3 in Hi. simpl in Hi.
    destruct (Nat.eq_dec i k) as [->|Hik].
    + rewrite nth_snoc_last by exact L3. rewrite nth_snoc_before by lia.
      rewrite T3. exact Hle.
    + rewrite !nth_snoc_before by lia. apply M. lia.
  - destruct Hcase as [(_ & _ & _ & _ & ->) | (_ & _ & _ & _ & ->)]; lia.
  - intros i Hi. destruct (Nat.eq_dec i (S k)) as [->|Hik].
    + rewrite Eb1, Eb2, Eloss.
      rewrite !nth_snoc_last by assumption.
      destruct Hcase as [(Hlt & -> & -> & -> & _) | (_ & -> & -> & -> & _)].
      * right. repeat split; trivial. lra.
      * rewrite <- T1, <- T2, <- T3. apply Hent. lia.
    + rewrite Eb1, Eb2, Eloss. rewrite !nth_snoc_before by lia. apply Hent. lia.
Qed.

End SearchFacts.

Section RunSimulation.

Context {RNG : Type} `{Generator RNG}.

Variables (self : MonteCarloTipsSimulation RNG) (n_samples : Z) (step_size : R).
Variables (b1_init b2_init : option R) (b1_bounds b2_bounds : R * R).
Variables (order_totals_arg observed_tips_arg : option Np.ndarray).

Let x := default_to order_totals_arg (order_totals self).
Let y := default_to observed_tips_arg (observed_tips self).
Let b1_0 := fst (fst (initial_parameters self b1_init b2_init)).
Let b2_0 := snd (fst (initial_parameters self b1_init b2_init)).

Lemma search_loop_invariant (s : locals RNG) :
  search_loop self n_samples step_size b1_init b2_init b1_bounds b2_bounds
    order_totals_arg observed_tips_arg = Ok s ->
  exists loss_0,
    calculate_loss b1_0 b2_0 x y = Ok loss_0 /\
    search_inv b1_bounds b2_bounds b1_0 b2_0 loss_0 (Z.to_nat n_samples) s.
Proof.
  unfold search_loop, b1_0, b2_0.
  destruct (initial_parameters self b1_init b2_init) as [[b1 b2] g]. simpl.
  intros E. apply bind_Ok_inv in E as (loss_0 & El & E).
  exists loss_0. split; [exact El|].
  replace (Z.to_nat n_samples) with (Z.to_nat n_samples + 0)%nat by lia.
  refine (for_range_invariant (search_inv b1_bounds b2_bounds b1 b2 loss_0) _ _
            _ _ _ _ (search_inv_init b1_bounds b2_bounds b1 b2 loss_0 g) E).
  intros i s1 s2 I E2. eapply search_inv_step; eassumption.
Qed.

Lemma search_loop_returns :
  length x = length y -> 0 <= step_size ->
  exists s, search_loop self n_samples step_size b1_init b2_init b1_bounds b2_bounds
              order_totals_arg observed_tips_arg = Ok s.
Proof.
  intros Elen Hs. unfold search_loop.
  destruct (initial_parameters self b1_init b2_init) as [[b1 b2] g].
  fold x y. rewrite (calculate_loss_equal_length b1 b2 x y Elen). simpl.
  apply (for_range_returns (fun _ => True)); [|exact I].
  intros i s _.
  destruct (search_step_returns step_size b1_bounds b2_bounds x y s b1 b2 _ Hs
              (calculate_loss_equal_length b1 b2 x y Elen)) as [s' E].
  eauto.
Qed.

Lemma run_simulation_inv (r : SimulationResults) (g : RNG) :
  run_simulation self n_samples step_size b1_init b2_init b1_bounds b2_bounds
    order_totals_arg observed_tips_arg = Ok (r, g) ->
  exists s,
    search_loop self n_samples step_size b1_init b2_init b1_bounds b2_bounds
      order_totals_arg observed_tips_arg = Ok s /\
    n_samples <> 0%Z /\
    b1_samples r = l_b1_samples s /\
    b2_samples r = l_b2_samples s /\
    loss_samples r = l_loss_samples s /\
    final_b1 r = l_b1 s /\ final_b2 r = l_b2 s /\ final_loss r = l_current_loss s /\
    acceptance_rate r = IZR (l_n_accepted s) / IZR n_samples.
Proof.
  unfold run_simulation. intros E.
  apply bind_Ok_inv in E as (s & Es & E).
  apply bind_Ok_inv in E as (rate & Er & E).
  exists s. split; [exact Es|].
  unfold py_truediv in Er. destruct (Z.eqb_spec n_samples 0) as [|Hn]; [discriminate|].
  injection Er as <-. injection E as <- <-. simpl. repeat split; auto.
Qed.

Lemma run_simulation_returns :
  n_samples <> 0%Z -> length x = length y -> 0 <= step_size ->
  exists r g, run_simulation self n_samples step_size b1_init b2_init b1_bounds b2_bounds
                order_totals_arg observed_tips_arg = Ok (r, g).
Proof.
  intros Hn Elen Hs. destruct (search_loop_returns Elen Hs) as [s Es].
  unfold run_simulation. rewrite Es. simpl. unfold py_truediv.
  destruct (Z.eqb_spec n_samples 0) as [|_]; [contradiction|]. simpl. eauto.
Qed.

(** C1.  With [n_samples >= 1] the call returns on every dataset when the step
    size is not negative (a negative one is refused by the generator), and in
    every returned result the loss trajectory never goes up from one entry to
    the next; the reason is the step rule: the proposal replaces the state
    when its loss is strictly smaller than the current loss, and otherwise
    (ties included) the state is kept. *)
Theorem loss_trajectory_non_increasing :
  (1 <= n_samples)%Z ->
  (length x = length y -> 0 <= step_size ->
   exists r g, run_simulation self n_samples step_size b1_init b2_init b1_bounds b2_bounds
                 order_totals_arg observed_tips_arg = Ok (r, g))
  /\
  (forall r g,
     run_simulation self n_samples step_size b1_init b2_init b1_bounds b2_bounds
       order_totals_arg observed_tips_arg = Ok (r, g) ->
     forall i, (S i < length (loss_samples r))%nat ->
               nth (S i) (loss_samples r) 0 <= nth i (loss_samples r) 0)
  /\
  (forall s s' : locals RNG,
     search_step step_size b1_bounds b2_bounds x y s = Ok s' ->
     exists b1_new b2_new g new_loss,
       propose step_size b1_bounds b2_bounds (l_b1 s) (l_b2 s) (l_rng s)
       = Ok (b1_new, b2_new, g) /\
       calculate_loss b1_new b2_new x y = Ok new_loss /\
       ((new_loss < l_current_loss s /\
         l_b1 s' = b1_new /\ l_b2 s' = b2_new /\ l_current_loss s' = new_loss /\
         l_n_accepted s' = (l_n_accepted s + 1)%Z)
        \/
        (~ new_loss < l_current_loss s /\
         l_b1 s' = l_b1 s /\ l_b2 s' = l_b2 s /\ l_current_loss s' = l_current_loss s /\
         l_n_accepted s' = l_n_accepted s))).
Proof.
  intros Hn. split; [|split].
  - apply run_simulation_returns. lia.
  - intros r g E. apply run_simulation_inv in E as (s & Es & _ & _ & _ & -> & _).
    apply search_loop_invariant in Es as (loss_0 & _ & I).
    exact (inv_mono _ _ _ _ _ _ _ I).
  - intros s s' E.
    destruct (search_step_cases _ _ _ _ _ _ _ E)
      as (b1_new & b2_new & g & new_loss & Ep & El & _ & _ & _ & _ & Hcase).
    exists b1_new, b2_new, g, new_loss. auto.
Qed.

(** C2.  With [n_samples >= 1] the call returns on every dataset when the step
    size is not negative, and in every returned result each of the three
    trajectories has [n_samples + 1] entries, whatever was accepted. *)
Theorem trajectory_length :
  (1 <= n_samples)%Z ->
  (length x = length y -> 0 <= step_size ->
   exists r g, run_simulation self n_samples step_size b1_init b2_init b1_bounds b2_bounds
                 order_totals_arg observed_tips_arg = Ok (r, g))
  /\
  (forall r g,
     run_simulation self n_samples step_size b1_init b2_init b1_bounds b2_bounds
       order_totals_arg observed_tips_arg = Ok (r, g) ->
     Z.of_nat (length (b1_samples r)) = (n_samples + 1)%Z /\
     Z.of_nat (length (b2_samples r)) = (n_samples + 1)%Z /\
     Z.of_nat (length (loss_samples r)) = (n_samples + 1)%Z).
Proof.
  intros Hn. split.
  - apply run_simulation_returns. lia.
  - intros r g E. apply run_simulation_inv in E as (s & Es & _ & -> & -> & -> & _).
    apply search_loop_invariant in Es as (loss_0 & _ & I).
    rewrite (inv_len_b1 _ _ _ _ _ _ _ I), (inv_len_b2 _ _ _ _ _ _ _ I),
      (inv_len_loss _ _ _ _ _ _ _ I).
    lia.
Qed.

(** C10.  The starting parameters are recorded as they are: a value the caller
    supplies is the first trajectory entry, unclipped, and it stays the entry
    for as long as the loss is still the initial loss, that is until a proposal
    is accepted.  Only proposals are clipped, so with bounds given as
    [(min, max)] every entry that differs from the starting point lies inside
    both bounds.  The call returns on every dataset when the step size is not
    negative. *)
Theorem initial_parameters_never_clipped :
  (forall v, b1_init = Some v -> b1_0 = v) /\
  (forall v, b2_init = Some v -> b2_0 = v) /\
  (n_samples <> 0%Z -> length x = length y -> 0 <= step_size ->
   exists r g, run_simulation self n_samples step_size b1_init b2_init b1_bounds b2_bounds
                 order_totals_arg observed_tips_arg = Ok (r, g))
  /\
  (forall r g,
     run_simulation self n_samples step_size b1_init b2_init b1_bounds b2_bounds
       order_totals_arg observed_tips_arg = Ok (r, g) ->
     nth 0 (b1_samples r) 0 = b1_0 /\
     nth 0 (b2_samples r) 0 = b2_0 /\
     (forall i, (i < length (loss_samples r))%nat ->
                nth i (loss_samples r) 0 = nth 0 (loss_samples r) 0 ->
                nth i (b1_samples r) 0 = b1_0 /\ nth i (b2_samples r) 0 = b2_0) /\
     (fst b1_bounds <= snd b1_bounds -> fst b2_bounds <= snd b2_bounds ->
      forall i, (i < length (b1_samples r))%nat ->
                nth i (b1_samples r) 0 <> b1_0 \/ nth i (b2_samples r) 0 <> b2_0 ->
                fst b1_bounds <= nth i (b1_samples r) 0 <= snd b1_bounds /\
                fst b2_bounds <= nth i (b2_samples r) 0 <= snd b2_bounds)).
Proof.
  split; [|split; [|split]].
  - intros v E. unfold b1_0, initial_parameters. rewrite E.
    destruct b2_init; [|destruct (uniform _ _ _)]; reflexivity.
  - intros v E. unfold b2_0, initial_parameters. rewrite E.
    destruct b1_init; [|destruct (uniform _ _ _)]; reflexivity.
  - apply run_simulation_returns.
  - intros r g E. apply run_simulation_inv in E as (s & Es & _ & -> & -> & -> & _).
    apply search_loop_invariant in Es as (loss_0 & _ & I).
    destruct I as [L1 L2 L3 _ _ _ F1 F2 F3 _ _ Hent].
    split; [exact F1|]. split; [exact F2|]. split.
    + intros i Hi Ei. rewrite F3 in Ei.
      destruct (Hent i ltac:(lia)) as [(E1 & E2 & _) | (Hlt & _)]; [auto | lra].
    + intros Hb1 Hb2 i Hi Hdiff.
      destruct (Hent i ltac:(lia)) as [(E1 & E2 & _) | (_ & Hc1 & Hc2)].
      * destruct Hdiff; contradiction.
      * split; apply clipped_in_bounds; assumption.
Qed.

End RunSimulation.

(** ** The shapes on which the loss is defined *)

Lemma sub_returns_iff (a b : Np.ndarray) :
  (exists d, Np.sub a b = Ok d) <-> broadcastable (length a) (length b).
Proof.
  unfold Np.sub, broadcastable.
  destruct (Nat.eqb_spec (length a) (length b)) as [E|E].
  - split; [intros _; left; exact E | eauto].
  - destruct a as [|u [|u' a]]; destruct b as [|v [|v' b]]; simpl in *;
      split; try (intros [d Hd]; discriminate Hd); try (intros [?|[?|?]]; lia); eauto.
Qed.

Lemma sub_raises (a b : Np.ndarray) :
  ~ broadcastable (length a) (length b) -> Np.sub a b = Raise ValueError.
Proof.
  intros Hn. destruct (Np.sub a b) as [d|e] eqn:E.
  - elim Hn. apply sub_returns_iff. eauto.
  - unfold Np.sub in E. destruct (Nat.eqb _ _); [discriminate|].
    destruct a as [|u [|u' a]]; destruct b as [|v [|v' b]]; congruence.
Qed.

Lemma calculate_loss_returns (b1 b2 : R) (x y : Np.ndarray) :
  broadcastable (length x) (length y) -> exists loss, calculate_loss b1 b2 x y = Ok loss.
Proof.
  intros Hb. unfold calculate_loss.
  destruct (proj2 (sub_returns_iff y (Np.scalar_add b1 (Np.scalar_mul b2 x)))) as [d ->].
  - unfold Np.scalar_add, Np.scalar_mul. rewrite !length_map.
    unfold broadcastable in *. intuition lia.
  - simpl. eauto.
Qed.

Lemma calculate_loss_raises (b1 b2 : R) (x y : Np.ndarray) :
  ~ broadcastable (length x) (length y) -> calculate_loss b1 b2 x y = Raise ValueError.
Proof.
  intros Hn. unfold calculate_loss. rewrite sub_raises; [reflexivity|].
  unfold Np.scalar_add, Np.scalar_mul. rewrite !length_map.
  unfold broadcastable in *. intuition lia.
Qed.

Section ZeroSamples.

Context {RNG : Type} `{Generator RNG}.

Variables (self : MonteCarloTipsSimulation RNG) (step_size : R).
Variables (b1_init b2_init : option R) (b1_bounds b2_bounds : R * R).
Variables (order_totals_arg observed_tips_arg : option Np.ndarray).

Let x := default_to order_totals_arg (order_totals self).
Let y := default_to observed_tips_arg (observed_tips self).
Let b1_0 := fst (fst (initial_parameters self b1_init b2_init)).
Let b2_0 := snd (fst (initial_parameters self b1_init b2_init)).

(** C8 (as amended).  With [n_samples = 0] the call never returns a result, so
    it yields no trajectory at all.  On arrays that broadcast against each
    other the initial loss is computed, the loop body never runs, and the call
    ends in the [ZeroDivisionError] of [n_accepted / n_samples], that is of
    [0 / 0]; on other arrays it ends before that, in the [ValueError] of the
    initial loss.  Either way the caller gets an exception and no
    acceptance rate. *)
Theorem zero_samples_raises :
  (forall r g,
     run_simulation self 0 step_size b1_init b2_init b1_bounds b2_bounds
       order_totals_arg observed_tips_arg <> Ok (r, g))
  /\
  (broadcastable (length x) (length y) ->
   (exists loss_0, calculate_loss b1_0 b2_0 x y = Ok loss_0) /\
   py_truediv 0 0 = Raise ZeroDivisionError /\
   run_simulation self 0 step_size b1_init b2_init b1_bounds b2_bounds
     order_totals_arg observed_tips_arg = Raise ZeroDivisionError)
  /\
  (~ broadcastable (length x) (length y) ->
   run_simulation self 0 step_size b1_init b2_init b1_bounds b2_bounds
     order_totals_arg observed_tips_arg = Raise ValueError).
Proof.
  split; [|split].
  - intros r g E. apply run_simulation_inv in E as (s & _ & Hn & _). congruence.
  - intros Hb. unfold run_simulation, search_loop, b1_0, b2_0.
    destruct (initial_parameters self b1_init b2_init) as [[b1 b2] g]. simpl. fold x y.
    destruct (calculate_loss_returns b1 b2 x y Hb) as [loss_0 El]. rewrite El.
    split; [eauto|]. split; reflexivity.
  - intros Hn. unfold run_simulation, search_loop.
    destruct (initial_parameters self b1_init b2_init) as [[b1 b2] g]. fold x y.
    rewrite calculate_loss_raises by exact Hn. reflexivity.
Qed.

End ZeroSamples.

(** ** A run of the search on a concrete generator *)

Lemma clip_inside (v lo hi : R) : lo <= v <= hi -> Np.clip v lo hi = v.
Proof.
  intros Hv. unfold Np.clip. rewrite Rmax_left, Rmin_left by lra. reflexivity.
Qed.

Lemma rng_normal_ok {RNG : Type} {G : Generator RNG} (loc scale : R) (g : RNG) :
  0 <= scale -> rng_normal loc scale g = Ok (normal loc scale g).
Proof.
  intros Hs. unfold rng_normal. destruct (Rlt_dec scale 0); [lra | reflexivity].
Qed.

Ltac draw_proposal :=
  unfold search_step at 1, propose; simpl;
  repeat (rewrite rng_normal_ok by lra; simpl).

(** One point [(1, 0)], start at [(10, 0)] with loss 100.  The first proposal,
    [(5, 0)] with loss 25, is accepted; the second, [(10, 0)] with loss 100, is
    rejected and the state is recorded again. *)
Lemma run_simulation_two_steps :
  exists r,
    run_simulation {| order_totals := [1]; observed_tips := [0]; rng := [-1; 0; 1; 0] |}
      2 1 (Some 10) (Some 0) (0, 50) (0, 1) None None = Ok (r, []) /\
    b1_samples r = [10; 5; 5] /\
    b2_samples r = [0; 0; 0] /\
    loss_samples r = [100; 25; 25] /\
    acceptance_rate r = 1 / 2.
Proof.
  unfold run_simulation, search_loop. simpl.
  draw_proposal.
  rewrite (clip_inside (10 + (0 + 1 * 5 * -1))), (clip_inside (0 + (0 + 1 * 0))) by lra.
  simpl.
  destruct (Rlt_dec _ _) as [_|Hn]; [|exfalso; apply Hn; lra].
  draw_proposal.
  rewrite (clip_inside (10 + (0 + 1 * 5 * -1) + (0 + 1 * 5 * 1))),
    (clip_inside (0 + (0 + 1 * 0) + (0 + 1 * 0))) by lra.
  simpl.
  destruct (Rlt_dec _ _) as [Hlt|_]; [exfalso; lra|].
  simpl. eexists. split; [reflexivity|]. simpl.
  repeat split; repeat (f_equal; try lra).
Qed.

Lemma loss_trajectory_non_increasing_witness :
  exists r g,
    run_simulation {| order_totals := [1]; observed_tips := [0]; rng := [-1; 0; 1; 0] |}
      2 1 (Some 10) (Some 0) (0, 50) (0, 1) None None = Ok (r, g) /\
    forall i, (S i < length (loss_samples r))%nat ->
              nth (S i) (loss_samples r) 0 <= nth i (loss_samples r) 0.
Proof.
  destruct (loss_trajectory_non_increasing
              {| order_totals := [1]; observed_tips := [0]; rng := [-1; 0; 1; 0] |}
              2 1 (Some 10) (Some 0) (0, 50) (0, 1) None None ltac:(lia))
    as (Hret & Hmono & _).
  destruct (Hret eq_refl ltac:(lra)) as (r & g & E).
  exists r, g. split; [exact E | exact (Hmono r g E)].
Defined.

Lemma trajectory_length_witness :
  exists r g,
    run_simulation {| order_totals := [1]; observed_tips := [0]; rng := [-1; 0; 1; 0] |}
      2 1 (Some 10) (Some 0) (0, 50) (0, 1) None None = Ok (r, g) /\
    Z.of_nat (length (b1_samples r)) = 3%Z /\
    Z.of_nat (length (b2_samples r)) = 3%Z /\
    Z.of_nat (length (loss_samples r)) = 3%Z.
Proof.
  destruct (trajectory_length
              {| order_totals := [1]; observed_tips := [0]; rng := [-1; 0; 1; 0] |}
              2 1 (Some 10) (Some 0) (0, 50) (0, 1) None None ltac:(lia))
    as (Hret & Hlen).
  destruct (Hret eq_refl ltac:(lra)) as (r & g & E).
  exists r, g. split; [exact E | exact (Hlen r g E)].
Defined.

Lemma initial_parameters_never_clipped_witness :
  exists r g,
    run_simulation {| order_totals := [1]; observed_tips := [0]; rng := [-1; 0; 1; 0] |}
      2 1 (Some 60) (Some 0) (0, 50) (0, 1) None None = Ok (r, g) /\
    nth 0 (b1_samples r) 0 = 60 /\
    (forall i, (i < length (b1_samples r))%nat ->
               nth i (b1_samples r) 0 <> 60 \/ nth i (b2_samples r) 0 <> 0 ->
               0 <= nth i (b1_samples r) 0 <= 50 /\ 0 <= nth i (b2_samples r) 0 <= 1).
Proof.
  destruct (initial_parameters_never_clipped
              {| order_totals := [1]; observed_tips := [0]; rng := [-1; 0; 1; 0] |}
              2 1 (Some 60) (Some 0) (0, 50) (0, 1) None None)
    as (_ & _ & Hret & Hall).
  destruct (Hret ltac:(lia) eq_refl ltac:(lra)) as (r & g & E).
  destruct (Hall r g E) as (H0 & _ & _ & Hin).
  exists r, g. split; [exact E|]. split; [exact H0|].
  apply Hin; simpl; lra.
Defined.

(** C8, the claim as stated: the call with [n_samples = 0] yields no
    trajectory of length 1, because it yields nothing; it ends in
    [ZeroDivisionError]. *)
Lemma zero_samples_yield_no_trajectory :
  run_simulation {| order_totals := [1]; observed_tips := [0]; rng := [-1; 0; 1; 0] |}
    0 1 (Some 10) (Some 0) (0, 50) (0, 1) None None = Raise ZeroDivisionError
  /\
  ~ (exists r g,
       run_simulation {| order_totals := [1]; observed_tips := [0]; rng := [-1; 0; 1; 0] |}
         0 1 (Some 10) (Some 0) (0, 50) (0, 1) None None = Ok (r, g) /\
       length (loss_samples r) = 1%nat).
Proof.
  assert (E : run_simulation
                {| order_totals := [1]; observed_tips := [0]; rng := [-1; 0; 1; 0] |}
                0 1 (Some 10) (Some 0) (0, 50) (0, 1) None None = Raise ZeroDivisionError)
    by reflexivity.
  split; [exact E|]. intros (r & g & Er & _). rewrite E in Er. discriminate Er.
Qed.

(** ** The path layer *)

Lemma stride_from_length {A : Type} (step : nat) (a : list A) :
  (1 <= step)%nat ->
  forall skip, length (stride_from skip step a) = ((length a - skip + (step - 1)) / step)%nat.
Proof.
  intros Hstep. induction a as [|v a IH]; intros skip; simpl.
  - symmetry. apply Nat.div_small. lia.
  - destruct skip as [|skip]; simpl; rewrite IH.
    + replace (S (length a + (step - 1))) with (length a + 1 * step)%nat by lia.
      rewrite Nat.div_add by lia.
      destruct (Nat.le_gt_cases (step - 1) (length a)) as [Hle|Hgt].
      * replace (length a - (step - 1) + (step - 1))%nat with (length a) by lia. lia.
      * replace (length a - (step - 1))%nat with 0%nat by lia.
        rewrite (Nat.div_small (length a)) by lia.
        rewrite Nat.div_small by lia. reflexivity.
    + reflexivity.
Qed.

Lemma stride_from_nth {A : Type} (d : A) (step : nat) (a : list A) :
  (1 <= step)%nat ->
  forall skip k, nth k (stride_from skip step a) d = nth (skip + k * step) a d.
Proof.
  intros Hstep. induction a as [|v a IH]; intros skip k; simpl.
  - destruct k, (skip + _)%nat; reflexivity.
  - destruct skip as [|skip]; simpl.
    + destruct k as [|k]; simpl; [reflexivity|].
      rewrite IH. destruct step as [|step]; [lia|]. simpl.
      f_equal. lia.
    + apply IH.
Qed.

Lemma slice_step_length {A : Type} (a : list A) (step : Z) :
  (1 <= step)%Z ->
  Z.of_nat (length (slice_step a step)) = ((Z.of_nat (length a) + step - 1) / step)%Z.
Proof.
  intros Hstep. unfold slice_step.
  rewrite stride_from_length by lia.
  rewrite Nat.sub_0_r, Nat2Z.inj_div, Nat2Z.inj_add, Nat2Z.inj_sub by lia.
  rewrite Z2Nat.id by lia. f_equal. lia.
Qed.

Lemma slice_step_nth {A : Type} (d : A) (a : list A) (step : Z) (k : nat) :
  (1 <= step)%Z ->
  nth k (slice_step a step) d = nth (k * Z.to_nat step) a d.
Proof.
  intros Hstep. unfold slice_step. rewrite stride_from_nth by lia. reflexivity.
Qed.

Lemma path_step_positive (bias_samples : list R) : (1 <= path_step bias_samples)%Z.
Proof. unfold path_step. lia. Qed.

(** The number of points that the stride leaves: [ceil(L / step)]. *)
Lemma path_count_bounds (L : Z) :
  (0 <= L)%Z ->
  let step := Z.max 1 (L / 1000) in
  let count := ((L + step - 1) / step)%Z in
  (count <= 1999)%Z /\
  (L <= 1000 -> count = L)%Z /\
  ((L mod 1000 = 0)%Z -> (count <= 1000)%Z).
Proof.
  intros HL step count.
  assert (Hstep : (1 <= step)%Z) by (unfold step; lia).
  assert (Hq : (step = 1 /\ L < 2000 \/ 1 <= step /\ step = L / 1000)%Z).
  { unfold step. destruct (Z.max_spec 1 (L / 1000)) as [[H1 ->] | [H1 ->]].
    - right. lia.
    - left. split; [reflexivity|].
      pose proof (Z.div_mod L 1000 ltac:(lia)). pose proof (Z.mod_pos_bound L 1000 ltac:(lia)).
      lia. }
  pose proof (Z.div_mod L 1000 ltac:(lia)) as HLd.
  pose proof (Z.mod_pos_bound L 1000 ltac:(lia)) as HLm.
  pose proof (Z.div_mod (L + step - 1) step ltac:(lia)) as Hcd.
  pose proof (Z.mod_pos_bound (L + step - 1) step ltac:(lia)) as Hcm.
  fold count in Hcd.
  split; [|split].
  - destruct Hq as [[E1 HL2] | [_ Eq]].
    + rewrite E1 in *. lia.
    + assert (step * (count - 1000) <= L mod 1000 + step - 1)%Z by nia.
      assert (L mod 1000 + step - 1 < 1000 * step)%Z by nia.
      nia.
  - intros HL1. assert (E1 : step = 1%Z).
    { unfold step. destruct (Z.eq_dec L 1000) as [->|Hne]; [reflexivity|].
      rewrite Z.div_small by lia. reflexivity. }
    rewrite E1 in *. lia.
  - intros Hm. destruct Hq as [[E1 HL2] | [_ Eq]].
    + rewrite E1 in *. assert (L = 0 \/ L = 1000)%Z by lia. lia.
    + rewrite Hm in HLd. assert (L = 1000 * step)%Z by lia. nia.
Qed.

Lemma first_nth (a : list R) : a <> [] -> first a = Ok (nth 0 a 0).
Proof. destruct a; [contradiction | reflexivity]. Qed.

Lemma last_cons_nth (a : list R) (v : R) : last a v = nth (length a) (v :: a) 0.
Proof.
  revert v. induction a as [|w a IH]; intros v; [reflexivity|].
  change (nth (length (w :: a)) (v :: w :: a) 0) with (nth (length a) (w :: a) 0).
  rewrite <- IH. destruct a as [|u a]; [reflexivity|].
  change (last (w :: u :: a) v) with (last (u :: a) v).
  clear IH. revert u. induction a as [|t a IHa]; intros u; [reflexivity|].
  change (last (u :: t :: a) v) with (last (t :: a) v).
  change (last (u :: t :: a) w) with (last (t :: a) w).
  apply IHa.
Qed.

Lemma final_nth (a : list R) : a <> [] -> final a = Ok (nth (length a - 1) a 0).
Proof.
  destruct a as [|v a]; [contradiction|]. intros _. unfold final.
  rewrite last_cons_nth.
  replace (length (v :: a) - 1)%nat with (length a) by (simpl; lia). reflexivity.
Qed.

Lemma linspace_returns (start stop : R) (n : nat) :
  exists a, Np.linspace start stop (Z.of_nat n) = Ok a.
Proof.
  unfold Np.linspace. destruct (Z.ltb_spec (Z.of_nat n) 0); [lia|].
  destruct (Z.of_nat n =? 1)%Z; eauto.
Qed.

(** What [_add_optimization_trace] appends for non-empty sample sequences. *)
Lemma add_optimization_trace_returns (fig : list Scatter3d)
    (bias_samples slope_samples loss_samples : list R) :
  bias_samples <> [] -> slope_samples <> [] -> loss_samples <> [] ->
  let step := path_step bias_samples in
  exists colors,
    Np.linspace 0 1 (Z.of_nat (length (slice_step bias_samples step))) = Ok colors /\
    _add_optimization_trace fig bias_samples slope_samples loss_samples
    = Ok (fig ++
          [ {| name := "Optimization Path"; mode := "markers+lines";
               xs := slice_step bias_samples step;
               ys := slice_step slope_samples step;
               zs := slice_step loss_samples step;
               marker_size := 3; color := ColorScale colors |};
            {| name := "Start Point"; mode := "markers";
               xs := [nth 0 bias_samples 0];
               ys := [nth 0 slope_samples 0];
               zs := [nth 0 loss_samples 0];
               marker_size := 8; color := ColorName "red" |};
            {| name := "End Point"; mode := "markers";
               xs := [nth (length bias_samples - 1) bias_samples 0];
               ys := [nth (length slope_samples - 1) slope_samples 0];
               zs := [nth (length loss_samples - 1) loss_samples 0];
               marker_size := 8; color := ColorName "blue" |} ]).
Proof.
  intros Hb Hs Hl step.
  destruct (linspace_returns 0 1 (length (slice_step bias_samples step))) as [colors Ec].
  exists colors. split; [exact Ec|].
  unfold _add_optimization_trace. fold step. rewrite Ec. simpl.
  rewrite !first_nth, !final_nth by assumption. simpl.
  rewrite <- !app_assoc. reflexivity.
Qed.

(** C4 (as amended).  For a trajectory of [L >= 1] points the path layer is
    the trajectory taken with the uniform stride [max(1, L // 1000)], in the
    original order: point [k] of the path is point [k * stride] of the
    trajectory, and the path has [ceil(L / stride)] points.  That is at most
    1000 when [L <= 1000] or [L] is a multiple of 1000, and at most 1999 in
    general.  For [L = 5000] the stride is 5 and the path has exactly 1000
    points.  The first and the last trajectory point are always the start and
    the end marker. *)
Theorem path_layer_subsampling (fig : list Scatter3d)
    (bias_samples slope_samples loss_samples : list R) (L : nat) :
  (1 <= L)%nat ->
  length bias_samples = L -> length slope_samples = L -> length loss_samples = L ->
  let step := Z.max 1 (Z.of_nat L / 1000) in
  let count := ((Z.of_nat L + step - 1) / step)%Z in
  exists path start stop,
    _add_optimization_trace fig bias_samples slope_samples loss_samples
    = Ok (fig ++ [path; start; stop]) /\
    Z.of_nat (length (xs path)) = count /\
    Z.of_nat (length (ys path)) = count /\
    Z.of_nat (length (zs path)) = count /\
    (forall k, (k < length (xs path))%nat ->
       nth k (xs path) 0 = nth (k * Z.to_nat step) bias_samples 0 /\
       nth k (ys path) 0 = nth (k * Z.to_nat step) slope_samples 0 /\
       nth k (zs path) 0 = nth (k * Z.to_nat step) loss_samples 0) /\
    (count <= 1999)%Z /\
    ((L <= 1000)%nat \/ (Z.of_nat L mod 1000 = 0)%Z -> (count <= 1000)%Z) /\
    (L = 5000%nat -> step = 5%Z /\ count = 1000%Z) /\
    (xs start, ys start, zs start)
    = ([nth 0 bias_samples 0], [nth 0 slope_samples 0], [nth 0 loss_samples 0]) /\
    (xs stop, ys stop, zs stop)
    = ([nth (L - 1) bias_samples 0], [nth (L - 1) slope_samples 0],
       [nth (L - 1) loss_samples 0]).
Proof.
  intros HL Eb Es El step count.
  assert (Hb : bias_samples <> []) by (intros ->; simpl in Eb; lia).
  assert (Hs : slope_samples <> []) by (intros ->; simpl in Es; lia).
  assert (Hl : loss_samples <> []) by (intros ->; simpl in El; lia).
  destruct (add_optimization_trace_returns fig _ _ _ Hb Hs Hl) as (colors & _ & E).
  assert (Estep : path_step bias_samples = step) by (unfold path_step; rewrite Eb; reflexivity).
  rewrite Estep, Eb, Es, El in E.
  assert (Hstep : (1 <= step)%Z) by (unfold step; lia).
  destruct (path_count_bounds (Z.of_nat L) ltac:(lia)) as (H1999 & Hsmall & Hmult).
  fold step in H1999, Hsmall, Hmult. fold count in H1999, Hsmall, Hmult.
  eexists. eexists. eexists. split; [exact E|]. simpl.
  rewrite !slice_step_length, Eb, Es, El by exact Hstep. fold count.
  repeat split; trivial.
  - apply slice_step_nth, Hstep.
  - apply slice_step_nth, Hstep.
  - apply slice_step_nth, Hstep.
  - intros [Hle | Hm]; [rewrite Hsmall; lia | apply Hmult, Hm].
  - unfold step. rewrite H. reflexivity.
  - unfold count, step. rewrite H. reflexivity.
Qed.

Lemma path_layer_subsampling_witness :
  exists path start stop,
    _add_optimization_trace [] [1; 2] [3; 4] [5; 6] = Ok ([] ++ [path; start; stop]) /\
    Z.of_nat (length (xs path)) = 2%Z /\
    (xs start, ys start, zs start) = ([1], [3], [5]) /\
    (xs stop, ys stop, zs stop) = ([2], [4], [6]).
Proof.
  destruct (path_layer_subsampling [] [1; 2] [3; 4] [5; 6] 2
              ltac:(lia) eq_refl eq_refl eq_refl)
    as (path & start & stop & E & Hx & _ & _ & _ & _ & _ & _ & Hstart & Hstop).
  exists path, start, stop. repeat split; assumption.
Defined.

(** C4, the claim as stated: a trajectory of 1001 points has stride 1 and is
    emitted whole, so the path has 1001 points, more than 1000. *)
Lemma path_layer_over_1000_points :
  let t := repeat 0 1001 in
  exists path start stop,
    _add_optimization_trace [] t t t = Ok [path; start; stop] /\
    path_step t = 1%Z /\
    length (xs path) = 1001%nat /\
    ~ (length (xs path) <= 1000)%nat.
Proof.
  intros t.
  assert (Et : length t = 1001%nat) by apply repeat_length.
  assert (Ht : t <> []) by (intros E; rewrite E in Et; discriminate).
  destruct (add_optimization_trace_returns [] t t t Ht Ht Ht) as (colors & _ & E).
  assert (Estep : path_step t = 1%Z) by (unfold path_step; rewrite Et; reflexivity).
  rewrite Estep in E.
  assert (Elen : length (slice_step t 1) = 1001%nat).
  { apply Nat2Z.inj. rewrite slice_step_length, Et by lia. reflexivity. }
  eexists. eexists. eexists. split; [exact E|]. cbn [xs].
  rewrite Elen. repeat split; trivial. lia.
Qed.

(** ** The SSE surface: range detection *)

Lemma py_max_Rmax (a b : R) : py_max a b = Rmax a b.
Proof.
  unfold py_max, Rmax. destruct (Rlt_dec a b), (Rle_dec a b); lra.
Qed.

Lemma detect_ranges_both_supplied (self : LinearRegressionSSEVisualizer)
    (bias_range slope_range : R * R) (scale_factor : R) :
  detect_ranges self (Some bias_range) (Some slope_range) scale_factor
  = Ok (Some bias_range, Some slope_range).
Proof. reflexivity. Qed.

Lemma detect_ranges_both_omitted (self : LinearRegressionSSEVisualizer)
    (scale_factor slope_center : R) :
  slope_center_of self = Ok slope_center ->
  let bias_center := bias_center_of self in
  let w := Rmax (Rabs bias_center * scale_factor) (Rabs slope_center * scale_factor) in
  detect_ranges self None None scale_factor
  = Ok (Some (bias_center - w, bias_center + w), Some (slope_center - w, slope_center + w)).
Proof.
  intros E. unfold detect_ranges. rewrite E. simpl. rewrite py_max_Rmax. reflexivity.
Qed.

Lemma Rmax_scale (a b c : R) : 0 <= c -> Rmax (a * c) (b * c) = Rmax a b * c.
Proof.
  intros Hc. unfold Rmax. destruct (Rle_dec (a * c) (b * c)), (Rle_dec a b); nra.
Qed.

(** C6 (as amended).  When neither range is supplied, the half-width of each
    range is [|center| * scale_factor], the larger of the two half-widths [w]
    is used for both parameters, both ranges are [(center - w, center + w)]
    around their own centres, and the surface is the one computed for these two
    ranges.  For a non-negative [scale_factor],
    [w = max(|bias_center|, |slope_center|) * scale_factor]. *)
Theorem auto_ranges_share_wider_half_width (self : LinearRegressionSSEVisualizer)
    (resolution : Z) (scale_factor slope_center : R) :
  slope_center_of self = Ok slope_center ->
  let bias_center := bias_center_of self in
  let w := Rmax (Rabs bias_center * scale_factor) (Rabs slope_center * scale_factor) in
  let bias_range := (bias_center - w, bias_center + w) in
  let slope_range := (slope_center - w, slope_center + w) in
  detect_ranges self None None scale_factor = Ok (Some bias_range, Some slope_range) /\
  calculate_sse_surface self None None resolution scale_factor
  = calculate_sse_surface self (Some bias_range) (Some slope_range) resolution scale_factor /\
  (0 <= scale_factor -> w = Rmax (Rabs bias_center) (Rabs slope_center) * scale_factor).
Proof.
  intros E bias_center w bias_range slope_range.
  pose proof (detect_ranges_both_omitted self scale_factor slope_center E) as D.
  cbv zeta in D. fold bias_center w bias_range slope_range in D.
  split; [exact D|]. split.
  - unfold calculate_sse_surface. rewrite D, detect_ranges_both_supplied. reflexivity.
  - intros Hs. apply Rmax_scale, Hs.
Qed.

Lemma auto_ranges_share_wider_half_width_witness :
  exists self,
    __init__ [0; 1] [1; 3] (Some 1) (Some 2) false = Ok self /\
    detect_ranges self None None 3 = Ok (Some (1 - 6, 1 + 6), Some (2 - 6, 2 + 6)).
Proof.
  eexists. split; [reflexivity|].
  match goal with |- detect_ranges ?v _ _ _ = _ =>
    destruct (auto_ranges_share_wider_half_width v 50 3 2 eq_refl) as (D & _ & W)
  end.
  rewrite D. specialize (W ltac:(lra)). cbv zeta in W. rewrite W.
  replace (Rmax (Rabs (bias_center_of _)) (Rabs 2) * 3) with 6; [reflexivity|].
  unfold bias_center_of. simpl. rewrite !Rabs_pos_eq by lra.
  rewrite Rmax_right by lra. lra.
Defined.

Lemma detect_ranges_negative_scale (self : LinearRegressionSSEVisualizer) :
  bias_center_of self = 1 -> slope_center_of self = Ok 2 ->
  detect_ranges self None None (-1) = Ok (Some (2, 0), Some (3, 1)).
Proof.
  intros Eb Es. rewrite (detect_ranges_both_omitted self (-1) 2 Es). cbv zeta.
  rewrite Eb, !Rabs_pos_eq by lra. rewrite Rmax_left by lra.
  repeat f_equal; lra.
Qed.

(** C6, the claim as stated: with [scale_factor = -1] and centres 1 and 2 the
    code takes [w = max(-1, -2) = -1], not [max(1, 2) * -1 = -2]. *)
Lemma negative_scale_factor_half_width :
  exists self,
    __init__ [0; 1] [1; 3] (Some 1) (Some 2) false = Ok self /\
    bias_center_of self = 1 /\
    slope_center_of self = Ok 2 /\
    detect_ranges self None None (-1) = Ok (Some (2, 0), Some (3, 1)) /\
    detect_ranges self None None (-1)
    <> Ok (Some (1 - Rmax (Rabs 1) (Rabs 2) * (-1), 1 + Rmax (Rabs 1) (Rabs 2) * (-1)),
           Some (2 - Rmax (Rabs 1) (Rabs 2) * (-1), 2 + Rmax (Rabs 1) (Rabs 2) * (-1))).
Proof.
  eexists. split; [reflexivity|]. split; [reflexivity|]. split; [reflexivity|].
  rewrite detect_ranges_negative_scale by reflexivity.
  split; [reflexivity|].
  rewrite !Rabs_pos_eq, Rmax_right by lra.
  intros E. injection E as E _ _ _. lra.
Qed.

(** ** The SSE surface: one range supplied *)

Lemma calculate_sse_surface_bias_only (self : LinearRegressionSSEVisualizer)
    (bias_range : R * R) (resolution : Z) (scale_factor : R) :
  calculate_sse_surface self (Some bias_range) None resolution scale_factor
  = match slope_center_of self with
    | Ok _ => Raise UnboundLocalError
    | Raise e => Raise e
    end.
Proof.
  unfold calculate_sse_surface, detect_ranges.
  destruct (slope_center_of self); reflexivity.
Qed.

Lemma calculate_sse_surface_slope_only (self : LinearRegressionSSEVisualizer)
    (slope_range : R * R) (resolution : Z) (scale_factor : R) :
  calculate_sse_surface self None (Some slope_range) resolution scale_factor
  = Raise AssertionError.
Proof. reflexivity. Qed.

(** C5, the two calls with exactly one range supplied.  With [bias_range]
    given and [slope_range] omitted, the slope block reads the local [scope],
    which only the bias block binds: the call ends in [UnboundLocalError] (or
    in the exception of the slope heuristic).  With [slope_range] given and
    [bias_range] omitted, the assignment to [bias_range] sits inside the slope
    block and is skipped: [assert bias_range is not None] fails.  Neither call
    returns a surface; so it is on the three-customer dataset with the ranges
    [(0, 1)]. *)
Theorem one_range_supplied_raises :
  (forall (self : LinearRegressionSSEVisualizer) (range : R * R) (resolution : Z)
          (scale_factor : R),
     (exists e,
        calculate_sse_surface self (Some range) None resolution scale_factor = Raise e) /\
     (forall slope_center, slope_center_of self = Ok slope_center ->
        calculate_sse_surface self (Some range) None resolution scale_factor
        = Raise UnboundLocalError) /\
     calculate_sse_surface self None (Some range) resolution scale_factor
     = Raise AssertionError)
  /\
  (exists self,
     __init__ [3; 10; 25] [1; 2; 4] None None false = Ok self /\
     calculate_sse_surface self (Some (0, 1)) None 50 3 = Raise UnboundLocalError /\
     calculate_sse_surface self None (Some (0, 1)) 50 3 = Raise AssertionError).
Proof.
  split.
  - intros self range resolution scale_factor. split; [|split].
    + rewrite calculate_sse_surface_bias_only. destruct (slope_center_of self); eauto.
    + intros c E. rewrite calculate_sse_surface_bias_only, E. reflexivity.
    + apply calculate_sse_surface_slope_only.
  - eexists. split; [reflexivity|]. split; reflexivity.
Qed.

(** ** The SSE surface: the grid *)

Lemma set1_spec (row : list R) (j : nat) (v : R) :
  (j < length row)%nat ->
  exists row', Np.set1 row j v = Some row' /\
               length row' = length row /\
               nth_error row' j = Some v /\
               forall j', j' <> j -> nth_error row' j' = nth_error row j'.
Proof.
  revert j. induction row as [|h row IH]; intros j Hj; simpl in Hj; [lia|].
  destruct j as [|j]; simpl.
  - eexists. split; [reflexivity|]. repeat split.
    intros [|j'] Hne; [contradiction | reflexivity].
  - destruct (IH j ltac:(lia)) as (row' & -> & Hlen & Hget & Hother). simpl.
    eexists. split; [reflexivity|]. simpl. repeat split; auto.
    intros [|j'] Hne; [reflexivity | apply Hother; lia].
Qed.

Lemma shape_tail (r c : nat) (row : list R) (m : Np.ndarray2) :
  shape (S r) c (row :: m) -> length row = c /\ shape r c m.
Proof.
  intros [Hlen Hrows]. split; [apply (Hrows 0%nat); reflexivity|].
  split; [simpl in Hlen; lia|]. intros i r' E. apply (Hrows (S i)). exact E.
Qed.

Lemma shape_cons (r c : nat) (row : list R) (m : Np.ndarray2) :
  length row = c -> shape r c m -> shape (S r) c (row :: m).
Proof.
  intros Hrow [Hlen Hrows]. split; [simpl; lia|].
  intros [|i] r' E; simpl in E; [injection E as <-; exact Hrow | eapply Hrows, E].
Qed.

Lemma set2_spec (r c : nat) (m : Np.ndarray2) (i j : nat) (v : R) :
  shape r c m -> (i < r)%nat -> (j < c)%nat ->
  exists m', Np.set2 m i j v = Ok m' /\
             shape r c m' /\
             Np.get2 m' i j = Ok v /\
             forall i' j', (i' <> i \/ j' <> j) -> Np.get2 m' i' j' = Np.get2 m i' j'.
Proof.
  unfold Np.set2, Np.get2. revert r i.
  induction m as [|row m IH]; intros r i Hshape Hi Hj.
  - destruct Hshape as [Hlen _]. simpl in Hlen. lia.
  - destruct r as [|r]; [lia|].
    destruct (shape_tail r c row m Hshape) as [Hrow Hm].
    destruct i as [|i]; simpl.
    + destruct (set1_spec row j v ltac:(lia)) as (row' & -> & Hl' & Hget & Hother). simpl.
      eexists. split; [reflexivity|]. split; [|split].
      * apply shape_cons; [lia | exact Hm].
      * rewrite Hget. reflexivity.
      * intros [|i'] j' Hne; simpl; [|reflexivity].
        rewrite Hother by (destruct Hne; [contradiction | assumption]). reflexivity.
    + destruct (IH r i Hm ltac:(lia) Hj) as (m' & E & Hs' & Hget & Hother).
      destruct (Np.set_row m i j v) as [m0|]; [|discriminate].
      injection E as ->. simpl.
      eexists. split; [reflexivity|]. split; [|split].
      * apply shape_cons; assumption.
      * exact Hget.
      * intros [|i'] j' Hne; simpl; [reflexivity|].
        apply Hother. destruct Hne; [left; lia | right; assumption].
Qed.

Lemma linspace_length (start stop : R) (num : Z) :
  (0 <= num)%Z ->
  exists a, Np.linspace start stop num = Ok a /\ length a = Z.to_nat num.
Proof.
  intros Hn. unfold Np.linspace.
  destruct (Z.ltb_spec num 0); [lia|].
  destruct (Z.eqb_spec num 1) as [->|_].
  - eexists. split; reflexivity.
  - eexists. split; [reflexivity|]. rewrite length_map, length_seq. reflexivity.
Qed.

Lemma nth_error_map_const {A B : Type} (b : B) (l : list A) (i : nat) :
  (i < length l)%nat -> nth_error (map (fun _ => b) l) i = Some b.
Proof.
  revert i. induction l as [|a l IH]; intros i Hi; simpl in Hi; [lia|].
  destruct i as [|i]; [reflexivity|]. simpl. apply IH. lia.
Qed.

Lemma nth_error_nth_R (l : list R) (i : nat) :
  (i < length l)%nat -> nth_error l i = Some (nth i l 0).
Proof. intros Hi. apply nth_error_nth'. exact Hi. Qed.

Lemma meshgrid_shape (xs ys : Np.ndarray) :
  shape (length ys) (length xs) (fst (Np.meshgrid xs ys)) /\
  shape (length ys) (length xs) (snd (Np.meshgrid xs ys)).
Proof.
  unfold Np.meshgrid, shape. simpl. rewrite !length_map. split; (split; [reflexivity|]).
  - intros i row E. apply nth_error_In, in_map_iff in E as (y & <- & _). reflexivity.
  - intros i row E. apply nth_error_In, in_map_iff in E as (y & <- & _).
    apply length_map.
Qed.

Lemma meshgrid_get (xs ys : Np.ndarray) (i j : nat) :
  (i < length ys)%nat -> (j < length xs)%nat ->
  Np.get2 (fst (Np.meshgrid xs ys)) i j = Ok (nth j xs 0) /\
  Np.get2 (snd (Np.meshgrid xs ys)) i j = Ok (nth i ys 0).
Proof.
  intros Hi Hj. unfold Np.meshgrid, Np.get2. simpl. split.
  - rewrite nth_error_map_const by exact Hi. rewrite nth_error_nth_R by exact Hj. reflexivity.
  - rewrite nth_error_map, nth_error_nth_R by exact Hi. simpl.
    rewrite nth_error_map_const by exact Hj. reflexivity.
Qed.

Lemma zeros_like_shape (r c : nat) (m : Np.ndarray2) :
  shape r c m -> shape r c (Np.zeros_like m).
Proof.
  intros [Hlen Hrows]. unfold Np.zeros_like. split; [rewrite length_map; exact Hlen|].
  intros i row E. rewrite nth_error_map in E.
  destruct (nth_error m i) as [row0|] eqn:E0; [|discriminate].
  injection E as <-. rewrite length_map. eapply Hrows, E0.
Qed.

Lemma calculate_sse_dataset (self : LinearRegressionSSEVisualizer) (data : list (R * R))
    (bias slope : R) :
  x_data self = map fst data -> y_data self = map snd data ->
  _calculate_sse self bias slope = Ok (sse_of_dataset data bias slope).
Proof.
  intros Ex Ey. rewrite _calculate_sse_is_loss, Ex, Ey.
  rewrite calculate_loss_equal_length by (rewrite !length_map; reflexivity).
  f_equal. clear Ex Ey. induction data as [|[u v] data IH]; [reflexivity|].
  simpl in *. rewrite IH. ring.
Qed.

Section FillSse.

Variables (self : LinearRegressionSSEVisualizer) (data : list (R * R)).
Variables (bias_vals slope_vals : Np.ndarray) (n : nat).

Hypothesis Ex : x_data self = map fst data.
Hypothesis Ey : y_data self = map snd data.
Hypothesis Hbias : length bias_vals = n.
Hypothesis Hslope : length slope_vals = n.

Let bias_mesh := fst (Np.meshgrid bias_vals slope_vals).
Let slope_mesh := snd (Np.meshgrid bias_vals slope_vals).
Let cell (i j : nat) : R := sse_of_dataset data (nth j bias_vals 0) (nth i slope_vals 0).

Lemma fill_sse_cell (m : Np.ndarray2) (i j : nat) :
  shape n n m -> (i < n)%nat -> (j < n)%nat ->
  exists m',
    (b <- Np.get2 bias_mesh i j ;;
     s <- Np.get2 slope_mesh i j ;;
     v <- _calculate_sse self b s ;;
     Np.set2 m i j v) = Ok m' /\
    shape n n m' /\
    Np.get2 m' i j = Ok (cell i j) /\
    forall i' j', (i' <> i \/ j' <> j) -> Np.get2 m' i' j' = Np.get2 m i' j'.
Proof.
  intros Hm Hi Hj.
  destruct (meshgrid_get bias_vals slope_vals i j ltac:(lia) ltac:(lia)) as [Eb Es].
  fold bias_mesh in Eb. fold slope_mesh in Es. rewrite Eb, Es. simpl.
  rewrite (calculate_sse_dataset self data _ _ Ex Ey). simpl.
  apply set2_spec; assumption.
Qed.

Lemma fill_sse_row (m : Np.ndarray2) (i : nat) :
  (i < n)%nat -> shape n n m ->
  (forall i' j', (i' < i)%nat -> (j' < n)%nat -> Np.get2 m i' j' = Ok (cell i' j')) ->
  exists m',
    for_range n
      (fun j m =>
         b <- Np.get2 bias_mesh i j ;;
         s <- Np.get2 slope_mesh i j ;;
         v <- _calculate_sse self b s ;;
         Np.set2 m i j v) 0%nat m = Ok m' /\
    shape n n m' /\
    (forall i' j', (i' < S i)%nat -> (j' < n)%nat -> Np.get2 m' i' j' = Ok (cell i' j')).
Proof.
  intros Hi Hm Hdone.
  pose (P := fun (j : nat) (m : Np.ndarray2) =>
               shape n n m /\
               forall i' j', (i' < i \/ (i' = i /\ j' < j))%nat -> (j' < n)%nat ->
                             Np.get2 m i' j' = Ok (cell i' j')).
  destruct (for_range_bounded P
              (fun j m =>
                 b <- Np.get2 bias_mesh i j ;;
                 s <- Np.get2 slope_mesh i j ;;
                 v <- _calculate_sse self b s ;;
                 Np.set2 m i j v) n) with (n := n) (i := 0%nat) (s := m)
    as (m' & E & Hs' & Hcells).
  - intros j m0 Hj [Hs0 Hc0].
    destruct (fill_sse_cell m0 i j Hs0 Hi Hj) as (m1 & E1 & Hs1 & Hget & Hother).
    exists m1. split; [exact E1|]. split; [exact Hs1|].
    intros i' j' Hlt Hj'.
    destruct (Nat.eq_dec i' i) as [->|Hne]; [destruct (Nat.eq_dec j' j) as [->|Hnj]|].
    + exact Hget.
    + rewrite Hother by (right; exact Hnj). apply Hc0; [lia | exact Hj'].
    + rewrite Hother by (left; exact Hne). apply Hc0; [lia | exact Hj'].
  - lia.
  - split; [exact Hm|]. intros i' j' Hlt Hj'. apply Hdone; [lia | exact Hj'].
  - exists m'. split; [exact E|]. split; [exact Hs'|].
    intros i' j' Hi' Hj'. apply Hcells; [|exact Hj'].
    rewrite Nat.add_0_r. lia.
Qed.

Lemma fill_sse_cells (resolution : Z) (m : Np.ndarray2) :
  Z.to_nat resolution = n -> shape n n m ->
  exists m',
    fill_sse self resolution bias_mesh slope_mesh m = Ok m' /\
    shape n n m' /\
    (forall i j, (i < n)%nat -> (j < n)%nat -> Np.get2 m' i j = Ok (cell i j)).
Proof.
  intros En Hm. unfold fill_sse. rewrite En.
  pose (Q := fun (i : nat) (m : Np.ndarray2) =>
               shape n n m /\
               forall i' j', (i' < i)%nat -> (j' < n)%nat ->
                             Np.get2 m i' j' = Ok (cell i' j')).
  destruct (for_range_bounded Q
              (fun i m =>
                 for_range n
                   (fun j m =>
                      b <- Np.get2 bias_mesh i j ;;
                      s <- Np.get2 slope_mesh i j ;;
                      v <- _calculate_sse self b s ;;
                      Np.set2 m i j v) 0%nat m) n) with (n := n) (i := 0%nat) (s := m)
    as (m' & E & Hs' & Hcells).
  - intros i m0 Hi [Hs0 Hc0].
    destruct (fill_sse_row m0 i Hi Hs0 Hc0) as (m1 & E1 & Hs1 & Hc1).
    exists m1. split; [exact E1|]. split; assumption.
  - lia.
  - split; [exact Hm|]. intros i' j' Hlt. lia.
  - exists m'. split; [exact E|]. split; [exact Hs'|].
    intros i j Hi Hj. apply Hcells; [rewrite Nat.add_0_r; exact Hi | exact Hj].
Qed.

End FillSse.

(** With both ranges supplied and a resolution [N >= 0], the surface is
    returned: three [N] by [N] arrays, where cell [(i, j)] holds the [j]-th bias
    value, the [i]-th slope value, and the SSE of that line over the whole
    dataset. *)
Lemma calculate_sse_surface_both_supplied (self : LinearRegressionSSEVisualizer)
    (data : list (R * R)) (bias_range slope_range : R * R) (resolution : Z)
    (scale_factor : R) :
  x_data self = map fst data -> y_data self = map snd data -> (0 <= resolution)%Z ->
  let n := Z.to_nat resolution in
  exists bias_vals slope_vals bias_mesh slope_mesh sse_mesh,
    Np.linspace (fst bias_range) (snd bias_range) resolution = Ok bias_vals /\
    Np.linspace (fst slope_range) (snd slope_range) resolution = Ok slope_vals /\
    calculate_sse_surface self (Some bias_range) (Some slope_range) resolution scale_factor
    = Ok (bias_mesh, slope_mesh, sse_mesh) /\
    shape n n bias_mesh /\ shape n n slope_mesh /\ shape n n sse_mesh /\
    forall i j, (i < n)%nat -> (j < n)%nat ->
      Np.get2 bias_mesh i j = Ok (nth j bias_vals 0) /\
      Np.get2 slope_mesh i j = Ok (nth i slope_vals 0) /\
      Np.get2 sse_mesh i j
      = Ok (sse_of_dataset data (nth j bias_vals 0) (nth i slope_vals 0)).
Proof.
  intros Ex Ey HN n.
  destruct (linspace_length (fst bias_range) (snd bias_range) resolution HN)
    as (bias_vals & Eb & Lb).
  destruct (linspace_length (fst slope_range) (snd slope_range) resolution HN)
    as (slope_vals & Es & Ls).
  fold n in Lb, Ls.
  destruct (meshgrid_shape bias_vals slope_vals) as [Sb Ss]. rewrite Lb, Ls in Sb, Ss.
  destruct (fill_sse_cells self data bias_vals slope_vals n Ex Ey Lb Ls resolution
              (Np.zeros_like (fst (Np.meshgrid bias_vals slope_vals))) eq_refl
              (zeros_like_shape n n _ Sb))
    as (sse_mesh & Ef & Sm & Hcells).
  exists bias_vals, slope_vals, (fst (Np.meshgrid bias_vals slope_vals)),
    (snd (Np.meshgrid bias_vals slope_vals)), sse_mesh.
  split; [exact Eb|]. split; [exact Es|]. split.
  - unfold calculate_sse_surface. rewrite detect_ranges_both_supplied. simpl.
    rewrite Eb. simpl. rewrite Es. simpl.
    simpl in Ef. rewrite Ef. reflexivity.
  - split; [exact Sb|]. split; [exact Ss|]. split; [exact Sm|].
    intros i j Hi Hj.
    destruct (meshgrid_get bias_vals slope_vals i j ltac:(lia) ltac:(lia)) as [Gb Gs].
    split; [exact Gb|]. split; [exact Gs|]. apply Hcells; assumption.
Qed.

Lemma slope_center_returns (self : LinearRegressionSSEVisualizer) :
  true_slope self <> None \/ (x_data self <> [] /\ y_data self <> []) ->
  exists slope_center, slope_center_of self = Ok slope_center.
Proof.
  unfold slope_center_of, slope_heuristic.
  destruct (true_slope self) as [s|]; [eauto|].
  intros [Hs | [Hx Hy]]; [contradiction|].
  destruct (x_data self) as [|u x]; [contradiction|].
  destruct (y_data self) as [|v y]; [contradiction|].
  simpl. eauto.
Qed.

(** With neither range supplied the same holds for the auto-detected ranges, as
    soon as the slope centre is defined (the true slope is known or the dataset
    is not empty). *)
Lemma calculate_sse_surface_both_omitted (self : LinearRegressionSSEVisualizer)
    (data : list (R * R)) (resolution : Z) (scale_factor : R) :
  x_data self = map fst data -> y_data self = map snd data -> (0 <= resolution)%Z ->
  true_slope self <> None \/ data <> [] ->
  let n := Z.to_nat resolution in
  exists bias_range slope_range bias_vals slope_vals bias_mesh slope_mesh sse_mesh,
    detect_ranges self None None scale_factor = Ok (Some bias_range, Some slope_range) /\
    Np.linspace (fst bias_range) (snd bias_range) resolution = Ok bias_vals /\
    Np.linspace (fst slope_range) (snd slope_range) resolution = Ok slope_vals /\
    calculate_sse_surface self None None resolution scale_factor
    = Ok (bias_mesh, slope_mesh, sse_mesh) /\
    shape n n bias_mesh /\ shape n n slope_mesh /\ shape n n sse_mesh /\
    forall i j, (i < n)%nat -> (j < n)%nat ->
      Np.get2 bias_mesh i j = Ok (nth j bias_vals 0) /\
      Np.get2 slope_mesh i j = Ok (nth i slope_vals 0) /\
      Np.get2 sse_mesh i j
      = Ok (sse_of_dataset data (nth j bias_vals 0) (nth i slope_vals 0)).
Proof.
  intros Ex Ey HN Hc n.
  destruct (slope_center_returns self) as [slope_center Ec].
  { destruct Hc as [Hs | Hd]; [left; exact Hs | right].
    rewrite Ex, Ey. destruct data; [contradiction | split; discriminate]. }
  pose proof (detect_ranges_both_omitted self scale_factor slope_center Ec) as D.
  cbv zeta in D.
  set (w := Rmax (Rabs (bias_center_of self) * scale_factor)
              (Rabs slope_center * scale_factor)) in D.
  destruct (calculate_sse_surface_both_supplied self data
              (bias_center_of self - w, bias_center_of self + w)
              (slope_center - w, slope_center + w) resolution scale_factor Ex Ey HN)
    as (bias_vals & slope_vals & bias_mesh & slope_mesh & sse_mesh & Eb & Es & E & Hrest).
  exists (bias_center_of self - w, bias_center_of self + w),
    (slope_center - w, slope_center + w), bias_vals, slope_vals, bias_mesh, slope_mesh, sse_mesh.
  split; [exact D|]. split; [exact Eb|]. split; [exact Es|]. split; [|exact Hrest].
  rewrite <- E. unfold calculate_sse_surface. rewrite D, detect_ranges_both_supplied.
  reflexivity.
Qed.

(** ** Standardization *)

Lemma sum_sub_scalar (a : Np.ndarray) (c : R) :
  Np.sum (Np.sub_scalar a c) = Np.sum a - Np.size a * c.
Proof.
  unfold Np.size. induction a as [|v a IH]; [simpl; ring|].
  change (Np.sum (Np.sub_scalar (v :: a) c)) with (v - c + Np.sum (Np.sub_scalar a c)).
  change (Np.sum (v :: a)) with (v + Np.sum a).
  rewrite IH. change (length (v :: a)) with (S (length a)). rewrite S_INR. ring.
Qed.

Lemma sum_div_scalar (a : Np.ndarray) (c : R) :
  Np.sum (Np.div_scalar a c) = Np.sum a / c.
Proof.
  induction a as [|v a IH]; [simpl; unfold Rdiv; ring|].
  change (Np.sum (Np.div_scalar (v :: a) c)) with (v / c + Np.sum (Np.div_scalar a c)).
  change (Np.sum (v :: a)) with (v + Np.sum a).
  rewrite IH. unfold Rdiv. ring.
Qed.

Lemma std_empty : Np.std [] = 0.
Proof.
  unfold Np.std, Np.mean. simpl. unfold Rdiv. rewrite !Rmult_0_l. apply sqrt_0.
Qed.

Lemma std_nonzero_size (a : Np.ndarray) : Np.std a <> 0 -> Np.size a <> 0.
Proof.
  intros Hs. destruct a as [|v a]; [elim Hs; apply std_empty|].
  unfold Np.size. change (length (v :: a)) with (S (length a)).
  rewrite S_INR. pose proof (pos_INR (length a)). lra.
Qed.

(** The variance under the square root of [np.std]. *)
Lemma std_squared (a : Np.ndarray) :
  Np.std a <> 0 ->
  Np.std a ^ 2 = Np.mean (Np.square (Np.sub_scalar a (Np.mean a))).
Proof.
  intros Hs. unfold Np.std in *.
  set (V := Np.mean (Np.square (Np.sub_scalar a (Np.mean a)))) in *.
  destruct (Rle_or_lt 0 V) as [HV|HV].
  - replace (sqrt V ^ 2) with (sqrt V * sqrt V) by ring. apply sqrt_sqrt, HV.
  - elim Hs. apply sqrt_neg_0. lra.
Qed.

Lemma standardized_mean (a : Np.ndarray) :
  Np.std a <> 0 ->
  Np.mean (Np.div_scalar (Np.sub_scalar a (Np.mean a)) (Np.std a)) = 0.
Proof.
  intros Hs. pose proof (std_nonzero_size a Hs) as Hn.
  unfold Np.mean at 1.
  rewrite sum_div_scalar, sum_sub_scalar.
  unfold Np.size at 2. unfold Np.div_scalar, Np.sub_scalar. rewrite !length_map.
  fold (Np.size a). unfold Np.mean. field. split; assumption.
Qed.

Lemma square_standardized (a : Np.ndarray) (m s : R) :
  s <> 0 ->
  Np.square (Np.sub_scalar (Np.div_scalar (Np.sub_scalar a m) s) 0)
  = Np.div_scalar (Np.square (Np.sub_scalar a m)) (s ^ 2).
Proof.
  intros Hs. unfold Np.square, Np.sub_scalar, Np.div_scalar. rewrite !map_map.
  apply map_ext. intros v. field. exact Hs.
Qed.

Lemma mean_square_deviation (a : Np.ndarray) (m : R) :
  Np.mean (Np.square (Np.sub_scalar a m)) = Np.sum (Np.square (Np.sub_scalar a m)) / Np.size a.
Proof.
  unfold Np.mean, Np.size, Np.square, Np.sub_scalar. rewrite !length_map. reflexivity.
Qed.

Lemma standardized_std (a : Np.ndarray) :
  Np.std a <> 0 ->
  Np.std (Np.div_scalar (Np.sub_scalar a (Np.mean a)) (Np.std a)) = 1.
Proof.
  intros Hs. pose proof (std_nonzero_size a Hs) as Hn.
  pose proof (std_squared a Hs) as HV. rewrite mean_square_deviation in HV.
  unfold Np.std at 1. rewrite standardized_mean by exact Hs.
  rewrite square_standardized by exact Hs.
  unfold Np.mean at 1. rewrite sum_div_scalar.
  replace (Np.size (Np.div_scalar (Np.square (Np.sub_scalar a (Np.mean a))) (Np.std a ^ 2)))
    with (Np.size a)
    by (unfold Np.size, Np.div_scalar, Np.square, Np.sub_scalar; rewrite !length_map;
        reflexivity).
  replace (Np.sum (Np.square (Np.sub_scalar a (Np.mean a))) / Np.std a ^ 2 / Np.size a)
    with (Np.sum (Np.square (Np.sub_scalar a (Np.mean a))) / Np.size a / Np.std a ^ 2)
    by (field; split; assumption).
  rewrite <- HV.
  replace (Np.std a ^ 2 / Np.std a ^ 2) with 1 by (field; exact Hs).
  apply sqrt_1.
Qed.

(** The residuals of the adjusted line on the standardized data are the
    residuals of the original line on the original data divided by the target
    standard deviation. *)
Lemma standardized_sse (data : list (R * R)) (b s xm xs ym ys : R) :
  xs <> 0 -> ys <> 0 ->
  Np.sum (Np.square
            (Np.zip_sub (Np.div_scalar (Np.sub_scalar (map snd data) ym) ys)
               (Np.scalar_add ((b + s * xm - ym) / ys)
                  (Np.scalar_mul (s * (xs / ys))
                     (Np.div_scalar (Np.sub_scalar (map fst data) xm) xs)))))
  * ys ^ 2
  = Np.sum (Np.square
              (Np.zip_sub (map snd data)
                 (Np.scalar_add b (Np.scalar_mul s (map fst data))))).
Proof.
  intros Hxs Hys. induction data as [|[u v] data IH]; [simpl; ring|].
  simpl in *. rewrite <- IH. field. split; assumption.
Qed.

Lemma init_standardized (x y : Np.ndarray) (b s : R) :
  length x = length y ->
  let xm := Np.mean x in
  let xs := Np.std x in
  let ym := Np.mean y in
  let ys := Np.std y in
  let x' := Np.div_scalar (Np.sub_scalar x xm) xs in
  let y' := Np.div_scalar (Np.sub_scalar y ym) ys in
  let b' := (b + s * xm - ym) / ys in
  let s' := s * (xs / ys) in
  __init__ x y (Some b) (Some s) true
  = Ok {| x_data := x'; y_data := y';
          true_bias := Some b'; true_slope := Some s';
          standardized := true;
          x_mean := Some xm; x_std := Some xs; y_mean := Some ym; y_std := Some ys;
          true_sse := Some (Np.sum (Np.square
                              (Np.zip_sub y' (Np.scalar_add b' (Np.scalar_mul s' x')))));
          surface_min_bias := None; surface_min_slope := None; surface_min_sse := None |}.
Proof.
  intros Elen xm xs ym ys x' y' b' s'.
  unfold __init__. cbn [adjust_true x_data y_data true_bias true_slope].
  rewrite _calculate_sse_is_loss. cbn [x_data y_data].
  rewrite calculate_loss_equal_length; [reflexivity|].
  unfold Np.div_scalar, Np.sub_scalar. rewrite !length_map. exact Elen.
Qed.

Lemma init_raw (x y : Np.ndarray) (b s : R) :
  length x = length y ->
  __init__ x y (Some b) (Some s) false
  = Ok {| x_data := x; y_data := y;
          true_bias := Some b; true_slope := Some s;
          standardized := false;
          x_mean := None; x_std := None; y_mean := None; y_std := None;
          true_sse := Some (Np.sum (Np.square
                              (Np.zip_sub y (Np.scalar_add b (Np.scalar_mul s x)))));
          surface_min_bias := None; surface_min_slope := None; surface_min_sse := None |}.
Proof.
  intros Elen. unfold __init__. cbn [x_data y_data true_bias true_slope].
  rewrite _calculate_sse_is_loss. cbn [x_data y_data].
  rewrite calculate_loss_equal_length by exact Elen. reflexivity.
Qed.

(** C7 (as amended).  In exact arithmetic: for a dataset whose features and
    targets both have a non-zero standard deviation, and both true parameters
    given, the standardizing constructor returns a visualizer whose data have
    mean 0 and standard deviation 1, whose true parameters are the adjusted
    ones, and whose SSE at these parameters, multiplied by the target
    variance, is the SSE of the original parameters on the original data (the
    value the constructor records without standardization).  These are the
    formulas the float64 code evaluates with rounding. *)
Theorem standardization_round_trip (data : list (R * R)) (b s : R) :
  let x := map fst data in
  let y := map snd data in
  Np.std x <> 0 -> Np.std y <> 0 ->
  exists scaled raw sse_scaled sse_raw,
    __init__ x y (Some b) (Some s) true = Ok scaled /\
    __init__ x y (Some b) (Some s) false = Ok raw /\
    Np.mean (x_data scaled) = 0 /\ Np.std (x_data scaled) = 1 /\
    Np.mean (y_data scaled) = 0 /\ Np.std (y_data scaled) = 1 /\
    true_bias scaled = Some ((b + s * Np.mean x - Np.mean y) / Np.std y) /\
    true_slope scaled = Some (s * (Np.std x / Np.std y)) /\
    true_sse scaled = Some sse_scaled /\
    true_sse raw = Some sse_raw /\
    calculate_loss b s x y = Ok sse_raw /\
    sse_scaled * Np.std y ^ 2 = sse_raw.
Proof.
  intros x y Hx Hy.
  assert (Elen : length x = length y) by (unfold x, y; rewrite !length_map; reflexivity).
  pose proof (init_standardized x y b s Elen) as Es. cbv zeta in Es.
  pose proof (init_raw x y b s Elen) as Er.
  eexists. eexists. eexists. eexists.
  split; [exact Es|]. split; [exact Er|]. cbn [x_data y_data true_bias true_slope true_sse].
  split; [apply standardized_mean, Hx|].
  split; [apply standardized_std, Hx|].
  split; [apply standardized_mean, Hy|].
  split; [apply standardized_std, Hy|].
  split; [reflexivity|]. split; [reflexivity|]. split; [reflexivity|]. split; [reflexivity|].
  split; [apply calculate_loss_equal_length, Elen|].
  apply standardized_sse; assumption.
Qed.

(** C7, the claim as stated: on the float64 dataset [x = [0, 1, 2]],
    [y = [1e16, 1e16, 1e16 + 2]] with true parameters [(1e16, 1)], both
    standard deviations are positive, but the standardized targets have mean
    0.577 and standard deviation 0.816 instead of 0 and 1, and the SSE at the
    adjusted parameters times the target variance is 2.0 while the SSE on the
    original data is 0.0. *)
Lemma standardization_round_trip_binary64 :
  exists scaled raw,
    scaled = Binary64.__init__ [0; 1; 2]%float [1e16; 1e16; 10000000000000002]%float
               1e16 1 true /\
    raw = Binary64.__init__ [0; 1; 2]%float [1e16; 1e16; 10000000000000002]%float
            1e16 1 false /\
    PrimFloat.ltb 0 (Binary64.std [0; 1; 2]%float) = true /\
    PrimFloat.ltb 0 (Binary64.std [1e16; 1e16; 10000000000000002]%float) = true /\
    Binary64.mean (Binary64.y_data scaled) = 0.57735026918962584%float /\
    Binary64.std (Binary64.y_data scaled) = 0.81649658092772603%float /\
    Binary64.true_sse raw = 0%float /\
    PrimFloat.mul (Binary64.true_sse scaled)
      (PrimFloat.mul (Binary64.std [1e16; 1e16; 10000000000000002]%float)
                     (Binary64.std [1e16; 1e16; 10000000000000002]%float))
    = 2%float.
Proof.
  eexists. eexists. split; [reflexivity|]. split; [reflexivity|].
  repeat split; vm_compute; reflexivity.
Qed.

Lemma std_two_points (u v : R) : Np.std [u; v] = Rabs (u - v) / 2.
Proof.
  unfold Np.std, Np.mean, Np.size. simpl.
  replace ((u - (u + (v + 0)) / (1 + 1)) * ((u - (u + (v + 0)) / (1 + 1)) * 1) +
           ((v - (u + (v + 0)) / (1 + 1)) * ((v - (u + (v + 0)) / (1 + 1)) * 1) + 0))
    with (2 * ((u - v) / 2) ^ 2) by field.
  replace (2 * ((u - v) / 2) ^ 2 / (1 + 1)) with (((u - v) / 2) ^ 2) by field.
  replace (((u - v) / 2) ^ 2) with (Rsqr ((u - v) / 2)) by (unfold Rsqr; ring).
  rewrite sqrt_Rsqr_abs. unfold Rdiv. rewrite Rabs_mult.
  rewrite (Rabs_pos_eq (/ 2)) by lra. reflexivity.
Qed.

Lemma standardization_round_trip_witness :
  exists scaled sse_scaled,
    __init__ [0; 2] [1; 5] (Some 1) (Some 3) true = Ok scaled /\
    Np.mean (x_data scaled) = 0 /\ Np.std (x_data scaled) = 1 /\
    true_sse scaled = Some sse_scaled /\
    (exists sse_raw, calculate_loss 1 3 [0; 2] [1; 5] = Ok sse_raw /\
                     sse_scaled * Np.std [1; 5] ^ 2 = sse_raw).
Proof.
  assert (Hx : Np.std (map fst [(0, 1); (2, 5)]) <> 0).
  { change (Np.std [0; 2] <> 0). rewrite std_two_points.
    unfold Rabs. destruct (Rcase_abs (0 - 2)); lra. }
  assert (Hy : Np.std (map snd [(0, 1); (2, 5)]) <> 0).
  { change (Np.std [1; 5] <> 0). rewrite std_two_points.
    unfold Rabs. destruct (Rcase_abs (1 - 5)); lra. }
  destruct (standardization_round_trip [(0, 1); (2, 5)] 1 3 Hx Hy)
    as (scaled & raw & sse_scaled & sse_raw & Es & _ & Hm & Hs & _ & _ & _ & _ & Et & _ & El & E).
  exists scaled, sse_scaled. simpl in *. repeat split; trivial.
  exists sse_raw. split; assumption.
Defined.

(** * Further properties *)

(** ** The loss: shapes *)

(** X1.  [calculate_loss] returns a loss exactly when the two arrays
    broadcast against each other (equal lengths, or one of them of length 1);
    for every other pair of shapes it raises [ValueError], whatever the
    parameters. *)
Theorem calculate_loss_returns_iff_broadcastable (b1 b2 : R) (x y : Np.ndarray) :
  ((exists loss, calculate_loss b1 b2 x y = Ok loss)
   <-> broadcastable (length x) (length y))
  /\
  (~ broadcastable (length x) (length y) -> calculate_loss b1 b2 x y = Raise ValueError).
Proof.
  assert (Hlen : length (Np.scalar_add b1 (Np.scalar_mul b2 x)) = length x)
    by (unfold Np.scalar_add, Np.scalar_mul; rewrite !length_map; reflexivity).
  assert (Hsym : broadcastable (length y) (length x) <-> broadcastable (length x) (length y))
    by (unfold broadcastable; intuition lia).
  split; [split|].
  - intros [loss E]. unfold calculate_loss in E. apply bind_Ok_inv in E as (d & Ed & _).
    apply Hsym. rewrite <- Hlen. apply sub_returns_iff. eauto.
  - intros Hb. apply Hsym in Hb. rewrite <- Hlen in Hb.
    apply sub_returns_iff in Hb as [d Ed]. unfold calculate_loss. rewrite Ed. simpl. eauto.
  - intros Hn. unfold calculate_loss. rewrite sub_raises; [reflexivity|].
    rewrite Hlen. intros Hb. apply Hn, Hsym, Hb.
Qed.

(** ** The stochastic search: what a returned result records *)

Lemma count_decreases_snoc (l : list R) (k : nat) (v : R) :
  length l = S k ->
  count_decreases (l ++ [v])
  = (count_decreases l + (if Rlt_dec v (nth k l 0%R) then 1 else 0))%Z.
Proof.
  revert k. induction l as [|u l IH]; intros k E; [discriminate|].
  destruct l as [|w l].
  - injection E as <-. simpl. lia.
  - destruct k as [|k]; [discriminate|].
    change (count_decreases ((u :: w :: l) ++ [v]))
      with ((if Rlt_dec w u then 1 else 0) + count_decreases ((w :: l) ++ [v]))%Z.
    rewrite (IH k) by (simpl in *; lia).
    change (count_decreases (u :: w :: l))
      with ((if Rlt_dec w u then 1 else 0) + count_decreases (w :: l))%Z.
    change (nth (S k) (u :: w :: l) 0) with (nth k (w :: l) 0). lia.
Qed.

Section SearchConsistency.

Context {RNG : Type} `{Generator RNG}.

Variables (step_size : R) (b1_bounds b2_bounds : R * R) (x y : Np.ndarray).

Lemma search_consistent_step (b1_0 b2_0 loss_0 : R) (k : nat) (s s' : locals RNG) :
  search_inv b1_bounds b2_bounds b1_0 b2_0 loss_0 k s ->
  search_consistent x y k s ->
  search_step step_size b1_bounds b2_bounds x y s = Ok s' ->
  search_consistent x y (S k) s'.
Proof.
  intros I [Hcount Hloss] E.
  destruct (search_step_cases _ _ _ _ _ _ _ E)
    as (b1_new & b2_new & g & new_loss & Ep & El & _ & Eb1 & Eb2 & Eloss & Hcase).
  destruct I as [L1 L2 L3 T1 T2 T3 _ _ _ _ _ _].
  constructor.
  - rewrite Eloss, (count_decreases_snoc _ k) by exact L3. rewrite T3.
    destruct Hcase as [(Hlt & _ & _ & -> & ->) | (Hge & _ & _ & -> & ->)].
    + destruct (Rlt_dec new_loss (l_current_loss s)); [lia | contradiction].
    + destruct (Rlt_dec (l_current_loss s) (l_current_loss s)); [lra | lia].
  - intros i Hi. rewrite Eb1, Eb2, Eloss.
    destruct (Nat.eq_dec i (S k)) as [->|Hne].
    + rewrite !nth_snoc_last by assumption.
      destruct Hcase as [(_ & -> & -> & -> & _) | (_ & -> & -> & -> & _)]; [exact El|].
      rewrite <- T1, <- T2, <- T3. apply Hloss. lia.
    + rewrite !nth_snoc_before by lia. apply Hloss. lia.
Qed.

End SearchConsistency.

Lemma non_increasing_le (l : list R) (i j : nat) :
  non_increasing l -> (i <= j < length l)%nat -> nth j l 0 <= nth i l 0.
Proof.
  intros Hm [Hij Hj]. induction j as [|j IH].
  - replace i with 0%nat by lia. lra.
  - destruct (Nat.eq_dec i (S j)) as [->|Hne]; [lra|].
    apply Rle_trans with (nth j l 0); [apply Hm; exact Hj | apply IH; lia].
Qed.

Section RunSimulationRecords.

Context {RNG : Type} `{Generator RNG}.

Variables (self : MonteCarloTipsSimulation RNG) (n_samples : Z) (step_size : R).
Variables (b1_init b2_init : option R) (b1_bounds b2_bounds : R * R).
Variables (order_totals_arg observed_tips_arg : option Np.ndarray).

Let x := default_to order_totals_arg (order_totals self).
Let y := default_to observed_tips_arg (observed_tips self).
Let b1_0 := fst (fst (initial_parameters self b1_init b2_init)).
Let b2_0 := snd (fst (initial_parameters self b1_init b2_init)).

Lemma search_loop_consistent (s : locals RNG) :
  search_loop self n_samples step_size b1_init b2_init b1_bounds b2_bounds
    order_totals_arg observed_tips_arg = Ok s ->
  exists loss_0,
    calculate_loss b1_0 b2_0 x y = Ok loss_0 /\
    search_inv b1_bounds b2_bounds b1_0 b2_0 loss_0 (Z.to_nat n_samples) s /\
    search_consistent x y (Z.to_nat n_samples) s.
Proof.
  unfold search_loop, b1_0, b2_0.
  destruct (initial_parameters self b1_init b2_init) as [[b1 b2] g]. simpl.
  fold x y. intros E. apply bind_Ok_inv in E as (loss_0 & El & E).
  exists loss_0. split; [exact El|].
  replace (Z.to_nat n_samples) with (Z.to_nat n_samples + 0)%nat by lia.
  refine (for_range_invariant
            (fun k s => search_inv b1_bounds b2_bounds b1 b2 loss_0 k s /\
                        search_consistent x y k s) _ _ _ _ _ _ _ E).
  - intros i s1 s2 [I C] E2. split.
    + eapply search_inv_step; eassumption.
    + eapply search_consistent_step; eassumption.
  - split; [apply search_inv_init|]. constructor; simpl; [reflexivity|].
    intros i Hi. replace i with 0%nat by lia. exact El.
Qed.

(** X2.  When the feature and target arrays do not broadcast against each
    other, [run_simulation] raises [ValueError] for every number of samples
    (zero and negative ones included): the initial loss is computed before
    anything else. *)
Theorem run_simulation_shape_error :
  ~ broadcastable (length x) (length y) ->
  run_simulation self n_samples step_size b1_init b2_init b1_bounds b2_bounds
    order_totals_arg observed_tips_arg = Raise ValueError.
Proof.
  intros Hn. unfold run_simulation, search_loop.
  destruct (initial_parameters self b1_init b2_init) as [[b1 b2] g].
  fold x y. rewrite calculate_loss_raises by exact Hn. reflexivity.
Qed.

(** X3.  For [n_samples >= 1] the acceptance rate of every returned result
    lies between 0 and 1. *)
Theorem acceptance_rate_between_0_and_1 (r : SimulationResults) (g : RNG) :
  (1 <= n_samples)%Z ->
  run_simulation self n_samples step_size b1_init b2_init b1_bounds b2_bounds
    order_totals_arg observed_tips_arg = Ok (r, g) ->
  0 <= acceptance_rate r <= 1.
Proof.
  intros Hn E. apply run_simulation_inv in E as (s & Es & _ & _ & _ & _ & _ & _ & _ & ->).
  apply search_loop_invariant in Es as (loss_0 & _ & I).
  pose proof (inv_accepted _ _ _ _ _ _ _ I) as [Ha0 Ha1].
  rewrite Z2Nat.id in Ha1 by lia.
  apply IZR_le in Ha0, Ha1. assert (Hpos : 0 < IZR n_samples) by (apply IZR_lt; lia).
  split.
  - apply Rmult_le_pos; [exact Ha0 | left; apply Rinv_0_lt_compat, Hpos].
  - apply Rmult_le_reg_r with (IZR n_samples); [exact Hpos|].
    unfold Rdiv. rewrite Rmult_assoc, Rinv_l by lra. lra.
Qed.

(** X4.  The acceptance rate of a returned result is the quotient
    [n_accepted / n_samples] in which [n_accepted] is the number of steps at
    which the recorded loss went strictly down: the counter is incremented on
    exactly those steps. *)
Theorem acceptance_rate_counts_decreases (r : SimulationResults) (g : RNG) :
  run_simulation self n_samples step_size b1_init b2_init b1_bounds b2_bounds
    order_totals_arg observed_tips_arg = Ok (r, g) ->
  n_samples <> 0%Z /\
  acceptance_rate r = IZR (count_decreases (loss_samples r)) / IZR n_samples.
Proof.
  intros E. apply run_simulation_inv in E as (s & Es & Hn & _ & _ & -> & _ & _ & _ & ->).
  apply search_loop_consistent in Es as (loss_0 & _ & _ & C).
  rewrite <- (cons_count _ _ _ _ C). split; [exact Hn | reflexivity].
Qed.

(** X5.  In every returned result each recorded loss is the loss of the
    parameters recorded at the same index, and the final parameters and the
    final loss are the last entries of the three trajectories; so [final_loss]
    is the loss at [(final_b1, final_b2)]. *)
Theorem trajectory_entries_consistent (r : SimulationResults) (g : RNG) :
  run_simulation self n_samples step_size b1_init b2_init b1_bounds b2_bounds
    order_totals_arg observed_tips_arg = Ok (r, g) ->
  (forall i, (i < length (loss_samples r))%nat ->
     calculate_loss (nth i (b1_samples r) 0) (nth i (b2_samples r) 0) x y
     = Ok (nth i (loss_samples r) 0)) /\
  final_b1 r = nth (length (b1_samples r) - 1) (b1_samples r) 0 /\
  final_b2 r = nth (length (b2_samples r) - 1) (b2_samples r) 0 /\
  final_loss r = nth (length (loss_samples r) - 1) (loss_samples r) 0 /\
  calculate_loss (final_b1 r) (final_b2 r) x y = Ok (final_loss r).
Proof.
  intros E.
  apply run_simulation_inv in E as (s & Es & _ & -> & -> & -> & -> & -> & -> & _).
  apply search_loop_consistent in Es as (loss_0 & _ & I & C).
  destruct I as [L1 L2 L3 T1 T2 T3 _ _ _ _ _ _]. destruct C as [_ Hloss].
  rewrite L1, L2, L3. replace (S (Z.to_nat n_samples) - 1)%nat with (Z.to_nat n_samples) by lia.
  split; [intros i Hi; apply Hloss; lia|].
  split; [symmetry; exact T1|]. split; [symmetry; exact T2|]. split; [symmetry; exact T3|].
  rewrite <- T1, <- T2, <- T3. apply Hloss. lia.
Qed.

(** X6.  The final loss of a returned result is the smallest loss of the
    whole trajectory; in particular it is at most the initial loss. *)
Theorem final_loss_is_minimum (r : SimulationResults) (g : RNG) :
  run_simulation self n_samples step_size b1_init b2_init b1_bounds b2_bounds
    order_totals_arg observed_tips_arg = Ok (r, g) ->
  (forall i, (i < length (loss_samples r))%nat -> final_loss r <= nth i (loss_samples r) 0) /\
  calculate_loss b1_0 b2_0 x y = Ok (nth 0 (loss_samples r) 0).
Proof.
  intros E.
  apply run_simulation_inv in E as (s & Es & _ & _ & _ & -> & _ & _ & -> & _).
  apply search_loop_invariant in Es as (loss_0 & El & I).
  destruct I as [_ _ L3 _ _ T3 _ _ F3 M _ _].
  split.
  - intros i Hi. rewrite <- T3. apply non_increasing_le; [exact M | lia].
  - rewrite F3. exact El.
Qed.

(** X7.  A negative [n_samples] is not rejected: the loop does not run, the
    call returns the one-entry trajectories of the starting point, and the
    acceptance rate is [0 / n_samples = 0]. *)
Theorem negative_samples_return_start :
  (n_samples < 0)%Z -> broadcastable (length x) (length y) ->
  exists r g loss_0,
    calculate_loss b1_0 b2_0 x y = Ok loss_0 /\
    run_simulation self n_samples step_size b1_init b2_init b1_bounds b2_bounds
      order_totals_arg observed_tips_arg = Ok (r, g) /\
    b1_samples r = [b1_0] /\ b2_samples r = [b2_0] /\ loss_samples r = [loss_0] /\
    final_b1 r = b1_0 /\ final_b2 r = b2_0 /\ final_loss r = loss_0 /\
    acceptance_rate r = 0.
Proof.
  intros Hn Hb. unfold run_simulation, search_loop, b1_0, b2_0.
  destruct (initial_parameters self b1_init b2_init) as [[b1 b2] g]. simpl. fold x y.
  destruct (calculate_loss_returns b1 b2 x y Hb) as [loss_0 El]. rewrite El. simpl.
  replace (Z.to_nat n_samples) with 0%nat by lia. simpl.
  unfold py_truediv. destruct (Z.eqb_spec n_samples 0) as [|_]; [lia|]. simpl.
  eexists. eexists. exists loss_0. repeat split. unfold Rdiv. apply Rmult_0_l.
Qed.

(** X24.  A negative step size is refused in the first step: for
    [n_samples >= 1] and arrays that broadcast against each other the initial
    loss is computed and then the call ends in the [ValueError] that
    [rng.normal] raises for a negative scale; nothing is returned. *)
Theorem negative_step_size_raises :
  (1 <= n_samples)%Z -> step_size < 0 -> broadcastable (length x) (length y) ->
  (exists loss_0, calculate_loss b1_0 b2_0 x y = Ok loss_0) /\
  run_simulation self n_samples step_size b1_init b2_init b1_bounds b2_bounds
    order_totals_arg observed_tips_arg = Raise ValueError.
Proof.
  intros Hn Hs Hb. unfold run_simulation, search_loop, b1_0, b2_0.
  destruct (initial_parameters self b1_init b2_init) as [[b1 b2] g]. simpl. fold x y.
  destruct (calculate_loss_returns b1 b2 x y Hb) as [loss_0 El]. rewrite El.
  split; [eauto|]. simpl.
  destruct (Z.to_nat n_samples) as [|k] eqn:Ek; [lia|].
  simpl. rewrite search_step_raises by exact Hs. reflexivity.
Qed.

End RunSimulationRecords.

(** ** The data generation *)

Lemma np_insert_length (v : R) (a : Np.ndarray) : length (np_insert v a) = S (length a).
Proof.
  induction a as [|u a IH]; [reflexivity|]. simpl.
  destruct (Rle_dec v u); simpl; [reflexivity | rewrite IH; reflexivity].
Qed.

Lemma np_sort_length (a : Np.ndarray) : length (np_sort a) = length a.
Proof.
  induction a as [|v a IH]; [reflexivity|]. simpl. rewrite np_insert_length, IH. reflexivity.
Qed.

Lemma np_insert_permutation (v : R) (a : Np.ndarray) : Permutation (v :: a) (np_insert v a).
Proof.
  induction a as [|u a IH]; [apply Permutation_refl|]. simpl.
  destruct (Rle_dec v u); [apply Permutation_refl|].
  apply perm_trans with (u :: v :: a); [apply perm_swap | apply perm_skip, IH].
Qed.

Lemma np_sort_permutation (a : Np.ndarray) : Permutation a (np_sort a).
Proof.
  induction a as [|v a IH]; [apply perm_nil|]. simpl.
  apply perm_trans with (v :: np_sort a); [apply perm_skip, IH | apply np_insert_permutation].
Qed.

Lemma np_insert_sorted (v : R) (a : Np.ndarray) :
  StronglySorted Rle a -> StronglySorted Rle (np_insert v a).
Proof.
  induction a as [|u a IH]; intros Hs; simpl.
  - constructor; constructor.
  - inversion Hs as [|? ? Ha Hu]; subst.
    destruct (Rle_dec v u) as [Hle|Hgt].
    + constructor; [exact Hs|]. constructor; [exact Hle|].
      eapply Forall_impl; [|exact Hu]. intros w Hw. simpl in Hw. lra.
    + constructor; [apply IH, Ha|].
      apply (Permutation_Forall (np_insert_permutation v a)).
      constructor; [lra | exact Hu].
Qed.

Lemma np_sort_sorted (a : Np.ndarray) : StronglySorted Rle (np_sort a).
Proof.
  induction a as [|v a IH]; [constructor|]. simpl. apply np_insert_sorted, IH.
Qed.

Lemma strongly_sorted_ascending (a : Np.ndarray) : StronglySorted Rle a -> ascending a.
Proof.
  induction 1 as [|u a Ha IH Hu]; intros i j [Hij Hj]; simpl in Hj; [lia|].
  destruct j as [|j].
  - replace i with 0%nat by lia. lra.
  - destruct i as [|i]; simpl.
    + rewrite Forall_forall in Hu. apply Hu, nth_In. lia.
    + apply IH. lia.
Qed.

Lemma zip_add_length (a b : Np.ndarray) :
  length a = length b -> length (zip_add a b) = length a.
Proof.
  revert b. induction a as [|u a IH]; intros [|v b] E; simpl in *; try discriminate;
    [reflexivity|]. rewrite IH by lia. reflexivity.
Qed.

Lemma np_maximum_nonneg (a : Np.ndarray) : Forall (fun v => 0 <= v) (np_maximum 0 a).
Proof.
  unfold np_maximum. apply Forall_forall. intros v Hv.
  apply in_map_iff in Hv as (w & <- & _). apply Rmax_l.
Qed.

Lemma nth_line (c d : R) (a : Np.ndarray) (i : nat) :
  (i < length a)%nat ->
  nth i (Np.scalar_add c (Np.scalar_mul d a)) 0 = c + d * nth i a 0.
Proof.
  revert i. induction a as [|v a IH]; intros i Hi; simpl in Hi; [lia|].
  destruct i as [|i]; [reflexivity|]. apply IH. lia.
Qed.

Section DataGenerationFacts.

Context {RNG : Type} `{ArrayGenerator RNG}.

Variables (n_customers : Z) (true_b1 true_b2 noise_std order_min order_max : R) (seed : Z).

(** The constructor in terms of the two draws: it returns when both do, and
    then the sum [true_tips + noise] is on equal shapes. *)
Lemma init_by_draws (totals noise : Np.ndarray) (g1 g2 : RNG) :
  uniform_array order_min order_max n_customers (default_rng seed) = Ok (totals, g1) ->
  normal_array 0 noise_std n_customers g1 = Ok (noise, g2) ->
  let order_totals := np_sort totals in
  let true_tips := Np.scalar_add true_b1 (Np.scalar_mul true_b2 order_totals) in
  MonteCarloTipsSimulation_init n_customers true_b1 true_b2 noise_std order_min order_max seed
  = Ok {| sim_n_customers := n_customers; sim_true_b1 := true_b1; sim_true_b2 := true_b2;
          sim_noise_std := noise_std; sim_order_min := order_min; sim_order_max := order_max;
          sim_rng := g2;
          sim_order_totals := order_totals;
          sim_true_tips := true_tips;
          sim_observed_tips := np_maximum 0 (zip_add true_tips noise) |}.
Proof.
  intros Eu En order_totals true_tips.
  unfold MonteCarloTipsSimulation_init, generate_data. rewrite Eu. simpl. rewrite En. simpl.
  fold order_totals. fold true_tips.
  assert (El : length true_tips = length noise).
  { unfold true_tips, order_totals, Np.scalar_add, Np.scalar_mul.
    rewrite !length_map, np_sort_length. apply Nat2Z.inj.
    rewrite (uniform_array_size _ _ _ _ _ _ Eu), (normal_array_size _ _ _ _ _ _ En).
    reflexivity. }
  unfold np_add. rewrite El, Nat.eqb_refl. reflexivity.
Qed.

Lemma init_inv (sim : TipsSimulation RNG) :
  MonteCarloTipsSimulation_init n_customers true_b1 true_b2 noise_std order_min order_max seed
  = Ok sim ->
  exists totals noise g1,
    uniform_array order_min order_max n_customers (default_rng seed) = Ok (totals, g1) /\
    normal_array 0 noise_std n_customers g1 = Ok (noise, sim_rng sim) /\
    sim_order_totals sim = np_sort totals /\
    sim_true_tips sim = Np.scalar_add true_b1 (Np.scalar_mul true_b2 (np_sort totals)) /\
    sim_observed_tips sim = np_maximum 0 (zip_add (sim_true_tips sim) noise).
Proof.
  intros E.
  destruct (uniform_array order_min order_max n_customers (default_rng seed))
    as [[totals g1]|e] eqn:Eu.
  - destruct (normal_array 0 noise_std n_customers g1) as [[noise g2]|e] eqn:En.
    + pose proof (init_by_draws totals noise g1 g2 Eu En) as Ei. cbv zeta in Ei.
      rewrite Ei in E. injection E as <-. simpl.
      exists totals, noise, g1. repeat split; assumption.
    + unfold MonteCarloTipsSimulation_init, generate_data in E.
      rewrite Eu in E. simpl in E. rewrite En in E. discriminate.
  - unfold MonteCarloTipsSimulation_init, generate_data in E. rewrite Eu in E. discriminate.
Qed.

(** X8.  A constructed simulation holds three parallel arrays of exactly
    [n_customers] entries (so [n_customers] is not negative), and each true tip
    is [true_b1 + true_b2 * order_total] of the order total at its index. *)
Theorem generated_arrays_are_parallel (sim : TipsSimulation RNG) :
  MonteCarloTipsSimulation_init n_customers true_b1 true_b2 noise_std order_min order_max seed
  = Ok sim ->
  Z.of_nat (length (sim_order_totals sim)) = n_customers /\
  Z.of_nat (length (sim_true_tips sim)) = n_customers /\
  Z.of_nat (length (sim_observed_tips sim)) = n_customers /\
  forall i, (i < length (sim_order_totals sim))%nat ->
    nth i (sim_true_tips sim) 0 = true_b1 + true_b2 * nth i (sim_order_totals sim) 0.
Proof.
  intros E. destruct (init_inv sim E) as (totals & noise & g1 & Eu & En & -> & Et & Eo).
  pose proof (uniform_array_size _ _ _ _ _ _ Eu) as Lu.
  pose proof (normal_array_size _ _ _ _ _ _ En) as Ln.
  assert (Lt : length (sim_true_tips sim) = length totals).
  { rewrite Et. unfold Np.scalar_add, Np.scalar_mul.
    rewrite !length_map. apply np_sort_length. }
  split; [rewrite np_sort_length; exact Lu|].
  split; [rewrite Lt; exact Lu|].
  split.
  - rewrite Eo. unfold np_maximum. rewrite length_map, zip_add_length by lia.
    rewrite Lt. exact Lu.
  - intros i Hi. rewrite Et. apply nth_line, Hi.
Qed.

(** X9.  No observed tip of a constructed simulation is negative, whatever
    the noise: the noisy tips are clipped at 0. *)
Theorem observed_tips_nonnegative (sim : TipsSimulation RNG) :
  MonteCarloTipsSimulation_init n_customers true_b1 true_b2 noise_std order_min order_max seed
  = Ok sim ->
  Forall (fun tip => 0 <= tip) (sim_observed_tips sim).
Proof.
  intros E. destruct (init_inv sim E) as (totals & noise & g1 & _ & _ & _ & _ & ->).
  apply np_maximum_nonneg.
Qed.

(** X10.  The order totals of a constructed simulation are the drawn totals
    in ascending order: a permutation of the draw, sorted. *)
Theorem order_totals_sorted (sim : TipsSimulation RNG) :
  MonteCarloTipsSimulation_init n_customers true_b1 true_b2 noise_std order_min order_max seed
  = Ok sim ->
  ascending (sim_order_totals sim) /\
  exists totals g1,
    uniform_array order_min order_max n_customers (default_rng seed) = Ok (totals, g1) /\
    Permutation totals (sim_order_totals sim).
Proof.
  intros E. destruct (init_inv sim E) as (totals & noise & g1 & Eu & _ & -> & _).
  split; [apply strongly_sorted_ascending, np_sort_sorted|].
  exists totals, g1. split; [exact Eu | apply np_sort_permutation].
Qed.

End DataGenerationFacts.

(** X11.  A constructed simulation can always be searched on its own data:
    for every non-zero [n_samples] and every step size that is not negative,
    whatever the other arguments, [run_simulation] without explicit arrays
    returns a result. *)
Theorem constructed_simulation_runs {RNG : Type} `{Generator RNG} `{ArrayGenerator RNG}
    (n_customers : Z) (true_b1 true_b2 noise_std order_min order_max : R) (seed : Z)
    (sim : TipsSimulation RNG) (n_samples : Z) (step_size : R)
    (b1_init b2_init : option R) (b1_bounds b2_bounds : R * R) :
  MonteCarloTipsSimulation_init n_customers true_b1 true_b2 noise_std order_min order_max seed
  = Ok sim ->
  n_samples <> 0%Z -> 0 <= step_size ->
  exists r g,
    run_simulation (as_simulation sim) n_samples step_size b1_init b2_init
      b1_bounds b2_bounds None None = Ok (r, g).
Proof.
  intros E Hn Hs. apply run_simulation_returns; [exact Hn| |exact Hs]. simpl.
  destruct (init_inv _ _ _ _ _ _ _ sim E) as (totals & noise & g1 & Eu & En & -> & Et & ->).
  pose proof (uniform_array_size _ _ _ _ _ _ Eu) as Lu.
  pose proof (normal_array_size _ _ _ _ _ _ En) as Ln.
  assert (Lt : length (sim_true_tips sim) = length totals).
  { rewrite Et. unfold Np.scalar_add, Np.scalar_mul.
    rewrite !length_map. apply np_sort_length. }
  unfold np_maximum. rewrite length_map, zip_add_length by lia.
  rewrite np_sort_length, Lt. reflexivity.
Qed.

(** ** Worked examples for the search and the data generation *)

Lemma run_simulation_shape_error_witness :
  run_simulation {| order_totals := [1; 2]; observed_tips := [0; 0; 0]; rng := [] |}
    5 1 None None (0, 50) (0, 1) None None = Raise ValueError.
Proof.
  apply (run_simulation_shape_error
           {| order_totals := [1; 2]; observed_tips := [0; 0; 0]; rng := [] |}).
  intros [E | [E | E]]; discriminate E.
Defined.

Lemma acceptance_rate_between_0_and_1_witness :
  exists r,
    run_simulation {| order_totals := [1]; observed_tips := [0]; rng := [-1; 0; 1; 0] |}
      2 1 (Some 10) (Some 0) (0, 50) (0, 1) None None = Ok (r, []) /\
    0 <= acceptance_rate r <= 1.
Proof.
  destruct run_simulation_two_steps as (r & E & _).
  exists r. split; [exact E|].
  refine (acceptance_rate_between_0_and_1 _ _ _ _ _ _ _ _ _ r [] _ E). lia.
Defined.

Lemma acceptance_rate_counts_decreases_witness :
  exists r,
    run_simulation {| order_totals := [1]; observed_tips := [0]; rng := [-1; 0; 1; 0] |}
      2 1 (Some 10) (Some 0) (0, 50) (0, 1) None None = Ok (r, []) /\
    acceptance_rate r = IZR (count_decreases (loss_samples r)) / IZR 2.
Proof.
  destruct run_simulation_two_steps as (r & E & _).
  exists r. split; [exact E|].
  exact (proj2 (acceptance_rate_counts_decreases _ _ _ _ _ _ _ _ _ r [] E)).
Defined.

Lemma trajectory_entries_consistent_witness :
  exists r,
    run_simulation {| order_totals := [1]; observed_tips := [0]; rng := [-1; 0; 1; 0] |}
      2 1 (Some 10) (Some 0) (0, 50) (0, 1) None None = Ok (r, []) /\
    calculate_loss (final_b1 r) (final_b2 r) [1] [0] = Ok (final_loss r).
Proof.
  destruct run_simulation_two_steps as (r & E & _).
  exists r. split; [exact E|].
  exact (proj2 (proj2 (proj2 (proj2
           (trajectory_entries_consistent _ _ _ _ _ _ _ _ _ r [] E))))).
Defined.

Lemma final_loss_is_minimum_witness :
  exists r,
    run_simulation {| order_totals := [1]; observed_tips := [0]; rng := [-1; 0; 1; 0] |}
      2 1 (Some 10) (Some 0) (0, 50) (0, 1) None None = Ok (r, []) /\
    forall i, (i < length (loss_samples r))%nat -> final_loss r <= nth i (loss_samples r) 0.
Proof.
  destruct run_simulation_two_steps as (r & E & _).
  exists r. split; [exact E|].
  exact (proj1 (final_loss_is_minimum _ _ _ _ _ _ _ _ _ r [] E)).
Defined.

Lemma negative_samples_return_start_witness :
  exists r g,
    run_simulation {| order_totals := [1]; observed_tips := [0]; rng := [-1; 0; 1; 0] |}
      (-3) 1 (Some 10) (Some 0) (0, 50) (0, 1) None None = Ok (r, g) /\
    b1_samples r = [10] /\ acceptance_rate r = 0.
Proof.
  destruct (negative_samples_return_start
              {| order_totals := [1]; observed_tips := [0]; rng := [-1; 0; 1; 0] |}
              (-3) 1 (Some 10) (Some 0) (0, 50) (0, 1) None None ltac:(lia)
              (or_introl eq_refl))
    as (r & g & loss_0 & _ & E & Hb & _ & _ & _ & _ & _ & Hr).
  exists r, g. split; [exact E|]. split; [exact Hb | exact Hr].
Defined.

Lemma negative_step_size_raises_witness :
  run_simulation {| order_totals := [1]; observed_tips := [0]; rng := [-1; 0; 1; 0] |}
    1 (-1) (Some 10) (Some 0) (0, 50) (0, 1) None None = Raise ValueError.
Proof.
  refine (proj2 (negative_step_size_raises
                   {| order_totals := [1]; observed_tips := [0]; rng := [-1; 0; 1; 0] |}
                   1 (-1) (Some 10) (Some 0) (0, 50) (0, 1) None None _ _ _)).
  - lia.
  - lra.
  - left. reflexivity.
Defined.

(** The constructor on the replayed deviates [0.42, 0] (uniform) and
    [-10, 0] (normal): two customers. *)
Lemma init_two_customers :
  exists sim : TipsSimulation (list R),
    MonteCarloTipsSimulation_init 2 0.5 0.15 0.3 3 25 42 = Ok sim.
Proof.
  eexists. eapply (init_by_draws (RNG := list R) 2 0.5 0.15 0.3 3 25 42).
  - cbn. reflexivity.
  - cbn. reflexivity.
Qed.

Lemma generated_arrays_are_parallel_witness :
  exists sim : TipsSimulation (list R),
    MonteCarloTipsSimulation_init 2 0.5 0.15 0.3 3 25 42 = Ok sim /\
    Z.of_nat (length (sim_order_totals sim)) = 2%Z /\
    Z.of_nat (length (sim_observed_tips sim)) = 2%Z.
Proof.
  destruct init_two_customers as [sim E]. exists sim. split; [exact E|].
  destruct (generated_arrays_are_parallel _ _ _ _ _ _ _ sim E) as (H1 & _ & H3 & _).
  split; assumption.
Defined.

Lemma observed_tips_nonnegative_witness :
  exists sim : TipsSimulation (list R),
    MonteCarloTipsSimulation_init 2 0.5 0.15 0.3 3 25 42 = Ok sim /\
    Forall (fun tip => 0 <= tip) (sim_observed_tips sim).
Proof.
  destruct init_two_customers as [sim E]. exists sim. split; [exact E|].
  exact (observed_tips_nonnegative _ _ _ _ _ _ _ sim E).
Defined.

Lemma order_totals_sorted_witness :
  exists sim : TipsSimulation (list R),
    MonteCarloTipsSimulation_init 2 0.5 0.15 0.3 3 25 42 = Ok sim /\
    ascending (sim_order_totals sim).
Proof.
  destruct init_two_customers as [sim E]. exists sim. split; [exact E|].
  exact (proj1 (order_totals_sorted _ _ _ _ _ _ _ sim E)).
Defined.

Lemma constructed_simulation_runs_witness :
  exists (sim : TipsSimulation (list R)) r g,
    MonteCarloTipsSimulation_init 2 0.5 0.15 0.3 3 25 42 = Ok sim /\
    run_simulation (as_simulation sim) 30000 0.0001 None None (0, 50) (0, 1) None None
    = Ok (r, g).
Proof.
  destruct init_two_customers as [sim E].
  destruct (constructed_simulation_runs 2 0.5 0.15 0.3 3 25 42 sim 30000 0.0001 None None
              (0, 50) (0, 1) E ltac:(lia) ltac:(lra)) as (r & g & Er).
  exists sim, r, g. split; assumption.
Defined.

(** ** The visualizer: construction *)

(** X12.  On a dataset the constructor always returns.  It records [true_sse]
    exactly when both true parameters are given, and then it is the SSE of the
    stored (possibly adjusted) parameters on the stored (possibly standardized)
    data.  When only one true parameter is given it is stored as it is, also
    under standardization, where the data are rescaled but the parameter is
    not. *)
Theorem init_true_sse_iff_both_parameters (data : list (R * R)) (tb ts : option R)
    (standardize : bool) :
  let x := map fst data in
  let y := map snd data in
  exists self,
    __init__ x y tb ts standardize = Ok self /\
    (true_sse self = None <-> tb = None \/ ts = None) /\
    (tb = None \/ ts = None -> true_bias self = tb /\ true_slope self = ts) /\
    (forall v, true_sse self = Some v ->
       exists b s, true_bias self = Some b /\ true_slope self = Some s /\
                   _calculate_sse self b s = Ok v) /\
    (standardize = true ->
       x_data self = Np.div_scalar (Np.sub_scalar x (Np.mean x)) (Np.std x) /\
       y_data self = Np.div_scalar (Np.sub_scalar y (Np.mean y)) (Np.std y)).
Proof.
  intros x y.
  assert (Elen : length x = length y) by (unfold x, y; rewrite !length_map; reflexivity).
  destruct tb as [b|]; destruct ts as [s|].
  - destruct standardize.
    + pose proof (init_standardized x y b s Elen) as E. cbv zeta in E.
      eexists. split; [exact E|]. cbn [true_sse true_bias true_slope x_data y_data].
      split; [split; [discriminate | intros [?|?]; discriminate]|].
      split; [intros [?|?]; discriminate|]. split; [|auto].
      intros v Ev. injection Ev as <-. eexists. eexists.
      split; [reflexivity|]. split; [reflexivity|].
      rewrite _calculate_sse_is_loss. cbn [x_data y_data].
      apply calculate_loss_equal_length.
      unfold Np.div_scalar, Np.sub_scalar. rewrite !length_map. exact Elen.
    + pose proof (init_raw x y b s Elen) as E.
      eexists. split; [exact E|]. cbn [true_sse true_bias true_slope x_data y_data].
      split; [split; [discriminate | intros [?|?]; discriminate]|].
      split; [intros [?|?]; discriminate|]. split; [|discriminate].
      intros v Ev. injection Ev as <-. eexists. eexists.
      split; [reflexivity|]. split; [reflexivity|].
      rewrite _calculate_sse_is_loss. cbn [x_data y_data].
      apply calculate_loss_equal_length, Elen.
  - destruct standardize; (eexists; split; [reflexivity|]; simpl;
      split; [split; auto|]; split; [auto|]; split; [discriminate | auto; discriminate]).
  - destruct standardize; (eexists; split; [reflexivity|]; simpl;
      split; [split; auto|]; split; [auto|]; split; [discriminate | auto; discriminate]).
  - destruct standardize; (eexists; split; [reflexivity|]; simpl;
      split; [split; auto|]; split; [auto|]; split; [discriminate | auto; discriminate]).
Qed.

(** ** The path layer: errors and colours *)

Lemma add_optimization_trace_raises (fig : list Scatter3d)
    (bias_samples slope_samples loss_samples : list R) :
  bias_samples = [] \/ slope_samples = [] \/ loss_samples = [] ->
  _add_optimization_trace fig bias_samples slope_samples loss_samples = Raise IndexError.
Proof.
  intros Hempty. unfold _add_optimization_trace.
  destruct (linspace_returns 0 1
              (length (slice_step bias_samples (path_step bias_samples)))) as [colors ->].
  simpl.
  destruct bias_samples as [|b bs]; [reflexivity|].
  destruct slope_samples as [|s ss]; [reflexivity|].
  destruct loss_samples as [|l ls]; [reflexivity|].
  destruct Hempty as [E | [E | E]]; discriminate E.
Qed.

Lemma add_optimization_trace_nonempty (fig fig' : list Scatter3d)
    (bias_samples slope_samples loss_samples : list R) :
  _add_optimization_trace fig bias_samples slope_samples loss_samples = Ok fig' ->
  bias_samples <> [] /\ slope_samples <> [] /\ loss_samples <> [].
Proof.
  intros E.
  destruct bias_samples as [|b bs];
    [rewrite add_optimization_trace_raises in E by (left; reflexivity); discriminate|].
  destruct slope_samples as [|s ss];
    [rewrite add_optimization_trace_raises in E by (right; left; reflexivity); discriminate|].
  destruct loss_samples as [|l ls];
    [rewrite add_optimization_trace_raises in E by (right; right; reflexivity); discriminate|].
  repeat split; discriminate.
Qed.

(** X13.  [_add_optimization_trace] returns exactly when none of the three
    sample sequences is empty; with an empty one it raises [IndexError] at the
    start marker. *)
Theorem add_optimization_trace_returns_iff (fig : list Scatter3d)
    (bias_samples slope_samples loss_samples : list R) :
  ((exists fig', _add_optimization_trace fig bias_samples slope_samples loss_samples = Ok fig')
   <-> bias_samples <> [] /\ slope_samples <> [] /\ loss_samples <> [])
  /\
  (bias_samples = [] \/ slope_samples = [] \/ loss_samples = [] ->
   _add_optimization_trace fig bias_samples slope_samples loss_samples = Raise IndexError).
Proof.
  split; [split|apply add_optimization_trace_raises].
  - intros [fig' E]. eapply add_optimization_trace_nonempty, E.
  - intros (Hb & Hs & Hl).
    destruct (add_optimization_trace_returns fig _ _ _ Hb Hs Hl) as (colors & _ & E).
    eauto.
Qed.

Lemma linspace_unit_nth (n k : nat) (colors : Np.ndarray) :
  Np.linspace 0 1 (Z.of_nat n) = Ok colors -> (2 <= n)%nat -> (k < n)%nat ->
  nth k colors 0 = INR k / INR (n - 1).
Proof.
  unfold Np.linspace. destruct (Z.ltb_spec (Z.of_nat n) 0); [lia|].
  destruct (Z.eqb_spec (Z.of_nat n) 1); [lia|].
  intros E Hn Hk. injection E as <-. rewrite Nat2Z.id.
  rewrite (nth_indep _ 0 (0 + INR 0 * ((1 - 0) / IZR (Z.of_nat n - 1))))
    by (rewrite length_map, length_seq; exact Hk).
  rewrite (map_nth (fun k => 0 + INR k * ((1 - 0) / IZR (Z.of_nat n - 1)))).
  rewrite seq_nth by exact Hk. simpl.
  replace (IZR (Z.of_nat n - 1)) with (INR (n - 1))
    by (rewrite INR_IZR_INZ; f_equal; lia).
  assert (INR (n - 1) <> 0) by (apply not_0_INR; lia).
  field. assumption.
Qed.

(** X14.  The path trace carries one colour value per path point; for a path
    of at least two points the value of point [k] is [k / (points - 1)], from 0
    at the first point to 1 at the last, and a one-point path has the single
    value 0. *)
Theorem path_colours_run_from_0_to_1 (fig : list Scatter3d)
    (bias_samples slope_samples loss_samples : list R) :
  bias_samples <> [] -> slope_samples <> [] -> loss_samples <> [] ->
  exists path start stop colors,
    _add_optimization_trace fig bias_samples slope_samples loss_samples
    = Ok (fig ++ [path; start; stop]) /\
    color path = ColorScale colors /\
    length colors = length (xs path) /\
    (length (xs path) = 1%nat -> colors = [0]) /\
    ((2 <= length (xs path))%nat ->
     (forall k, (k < length (xs path))%nat ->
                nth k colors 0 = INR k / INR (length (xs path) - 1)) /\
     nth 0 colors 0 = 0 /\
     nth (length (xs path) - 1) colors 0 = 1).
Proof.
  intros Hb Hs Hl.
  destruct (add_optimization_trace_returns fig _ _ _ Hb Hs Hl) as (colors & Ec & E).
  eexists. eexists. eexists. exists colors. split; [exact E|]. cbn [color xs].
  set (n := length (slice_step bias_samples (path_step bias_samples))) in *.
  split; [reflexivity|].
  assert (Hlen : length colors = n).
  { destruct (linspace_length 0 1 (Z.of_nat n) ltac:(lia)) as (a & Ea & La).
    rewrite Ea in Ec. injection Ec as <-. rewrite La. apply Nat2Z.id. }
  split; [exact Hlen|]. split.
  - intros E1. rewrite E1 in Ec. simpl in Ec. injection Ec as <-. reflexivity.
  - intros Hn.
    assert (Hall : forall k, (k < n)%nat -> nth k colors 0 = INR k / INR (n - 1))
      by (intros k Hk; apply (linspace_unit_nth n k colors Ec Hn Hk)).
    split; [exact Hall|]. split.
    + rewrite Hall by lia. simpl. unfold Rdiv. apply Rmult_0_l.
    + rewrite Hall by lia. assert (INR (n - 1) <> 0) by (apply not_0_INR; lia).
      field. assumption.
Qed.

Lemma path_colours_run_from_0_to_1_witness :
  exists path start stop colors,
    _add_optimization_trace [] [1; 2] [3; 4] [5; 6] = Ok ([] ++ [path; start; stop]) /\
    color path = ColorScale colors /\
    length colors = length (xs path).
Proof.
  destruct (path_colours_run_from_0_to_1 [] [1; 2] [3; 4] [5; 6])
    as (path & start & stop & colors & E & Hc & Hl & _); try discriminate.
  exists path, start, stop, colors. repeat split; assumption.
Defined.

(** ** The SSE surface: resolution and extent of the grid *)

Lemma calculate_sse_surface_by_ranges (self : LinearRegressionSSEVisualizer)
    (bias_range slope_range : option (R * R)) (br sr : R * R) (resolution : Z)
    (scale_factor : R) :
  detect_ranges self bias_range slope_range scale_factor = Ok (Some br, Some sr) ->
  calculate_sse_surface self bias_range slope_range resolution scale_factor
  = calculate_sse_surface self (Some br) (Some sr) resolution scale_factor.
Proof.
  intros D. unfold calculate_sse_surface. rewrite D, detect_ranges_both_supplied. reflexivity.
Qed.

Lemma calculate_sse_surface_negative (self : LinearRegressionSSEVisualizer)
    (br sr : R * R) (resolution : Z) (scale_factor : R) :
  (resolution < 0)%Z ->
  calculate_sse_surface self (Some br) (Some sr) resolution scale_factor = Raise ValueError.
Proof.
  intros Hn. unfold calculate_sse_surface. rewrite detect_ranges_both_supplied. simpl.
  unfold Np.linspace. destruct (Z.ltb_spec resolution 0); [reflexivity | lia].
Qed.

Lemma calculate_sse_surface_zero (self : LinearRegressionSSEVisualizer)
    (br sr : R * R) (scale_factor : R) :
  calculate_sse_surface self (Some br) (Some sr) 0 scale_factor = Ok ([], [], []).
Proof. reflexivity. Qed.

(** X15.  Once the ranges are determined, a negative resolution raises
    [ValueError] and the resolution 0 gives three empty arrays;
    [create_3d_surface_plot] raises [ValueError] for every resolution below 1,
    at resolution 0 because the minimum of an empty surface is undefined. *)
Theorem resolution_below_one (self : LinearRegressionSSEVisualizer)
    (bias_range slope_range : option (R * R)) (br sr : R * R) (resolution : Z)
    (scale_factor : R) (bias_samples slope_samples loss_samples : option (list R))
    (colorscale title : string) (show_contours : bool) :
  detect_ranges self bias_range slope_range scale_factor = Ok (Some br, Some sr) ->
  (resolution <= 0)%Z ->
  (resolution < 0 ->
   calculate_sse_surface self bias_range slope_range resolution scale_factor
   = Raise ValueError)%Z /\
  (resolution = 0 ->
   calculate_sse_surface self bias_range slope_range resolution scale_factor
   = Ok ([], [], []))%Z /\
  create_3d_surface_plot self bias_samples slope_samples loss_samples bias_range slope_range
    resolution colorscale title scale_factor show_contours = Raise ValueError.
Proof.
  intros D Hr. unfold create_3d_surface_plot.
  rewrite (calculate_sse_surface_by_ranges self _ _ br sr resolution scale_factor D).
  split; [|split].
  - apply calculate_sse_surface_negative.
  - intros ->. apply calculate_sse_surface_zero.
  - destruct (Z.eq_dec resolution 0) as [->|Hne].
    + rewrite calculate_sse_surface_zero. reflexivity.
    + rewrite calculate_sse_surface_negative by lia. reflexivity.
Qed.

Lemma resolution_below_one_witness :
  exists self,
    __init__ [3; 10; 25] [1; 2; 4] None None false = Ok self /\
    calculate_sse_surface self (Some (0, 1)) (Some (0, 1)) 0 3 = Ok ([], [], []) /\
    create_3d_surface_plot self None None None (Some (0, 1)) (Some (0, 1)) 0
      "RdBu_r" "Linear Regression SSE Surface" 3 true = Raise ValueError.
Proof.
  eexists. split; [reflexivity|].
  match goal with |- calculate_sse_surface ?v _ _ _ _ = _ /\ _ =>
    destruct (resolution_below_one v (Some (0, 1)) (Some (0, 1)) (0, 1) (0, 1) 0 3
                None None None "RdBu_r" "Linear Regression SSE Surface" true
                eq_refl ltac:(lia)) as (_ & H0 & Hc)
  end.
  split; [apply H0; reflexivity | exact Hc].
Defined.

Lemma linspace_nth (start stop : R) (num : Z) (a : Np.ndarray) (k : nat) :
  Np.linspace start stop num = Ok a -> (2 <= num)%Z -> (k < Z.to_nat num)%nat ->
  nth k a 0 = start + INR k * ((stop - start) / IZR (num - 1)).
Proof.
  unfold Np.linspace. destruct (Z.ltb_spec num 0); [lia|].
  destruct (Z.eqb_spec num 1); [lia|].
  intros E Hn Hk. injection E as <-.
  rewrite (nth_indep _ 0 (start + INR 0 * ((stop - start) / IZR (num - 1))))
    by (rewrite length_map, length_seq; exact Hk).
  rewrite (map_nth (fun k => start + INR k * ((stop - start) / IZR (num - 1)))).
  rewrite seq_nth by exact Hk. reflexivity.
Qed.

Lemma linspace_ends (start stop : R) (num : Z) (a : Np.ndarray) :
  Np.linspace start stop num = Ok a -> (2 <= num)%Z ->
  nth 0 a 0 = start /\ nth (Z.to_nat num - 1) a 0 = stop.
Proof.
  intros E Hn. rewrite !(linspace_nth start stop num a _ E Hn) by lia. split.
  - simpl. ring.
  - replace (INR (Z.to_nat num - 1)) with (IZR (num - 1))
      by (rewrite INR_IZR_INZ; f_equal; lia).
    assert (IZR (num - 1) <> 0) by (intros E0; apply eq_IZR in E0; lia).
    field. assumption.
Qed.

(** X16.  With both ranges supplied and a resolution [N >= 2], the grid spans
    the ranges exactly: in every row the bias runs from [bias_range[0]] in the
    first column to [bias_range[1]] in the last, in equal steps, and in every
    column the slope runs from [slope_range[0]] in the first row to
    [slope_range[1]] in the last. *)
Theorem grid_spans_ranges (self : LinearRegressionSSEVisualizer) (data : list (R * R))
    (bias_range slope_range : R * R) (resolution : Z) (scale_factor : R) :
  x_data self = map fst data -> y_data self = map snd data -> (2 <= resolution)%Z ->
  let n := Z.to_nat resolution in
  exists bias_mesh slope_mesh sse_mesh,
    calculate_sse_surface self (Some bias_range) (Some slope_range) resolution scale_factor
    = Ok (bias_mesh, slope_mesh, sse_mesh) /\
    forall i j, (i < n)%nat -> (j < n)%nat ->
      Np.get2 bias_mesh i j
      = Ok (fst bias_range
            + INR j * ((snd bias_range - fst bias_range) / IZR (resolution - 1))) /\
      Np.get2 slope_mesh i j
      = Ok (fst slope_range
            + INR i * ((snd slope_range - fst slope_range) / IZR (resolution - 1))) /\
      Np.get2 bias_mesh i 0 = Ok (fst bias_range) /\
      Np.get2 bias_mesh i (n - 1) = Ok (snd bias_range) /\
      Np.get2 slope_mesh 0 j = Ok (fst slope_range) /\
      Np.get2 slope_mesh (n - 1) j = Ok (snd slope_range).
Proof.
  intros Ex Ey HN n.
  destruct (calculate_sse_surface_both_supplied self data bias_range slope_range resolution
              scale_factor Ex Ey ltac:(lia))
    as (bias_vals & slope_vals & bias_mesh & slope_mesh & sse_mesh
        & Eb & Es & E & _ & _ & _ & Hcells).
  fold n in Hcells.
  exists bias_mesh, slope_mesh, sse_mesh. split; [exact E|].
  destruct (linspace_ends _ _ _ _ Eb HN) as [Hb0 Hb1].
  destruct (linspace_ends _ _ _ _ Es HN) as [Hs0 Hs1].
  fold n in Hb1, Hs1.
  assert (Hn : (2 <= n)%nat) by (unfold n; lia).
  intros i j Hi Hj.
  destruct (Hcells i j Hi Hj) as (Gb & Gs & _).
  destruct (Hcells i 0%nat Hi ltac:(lia)) as (Gb0 & _ & _).
  destruct (Hcells i (n - 1)%nat Hi ltac:(lia)) as (Gb1 & _ & _).
  destruct (Hcells 0%nat j ltac:(lia) Hj) as (_ & Gs0 & _).
  destruct (Hcells (n - 1)%nat j ltac:(lia) Hj) as (_ & Gs1 & _).
  rewrite Gb, Gs, Gb0, Gb1, Gs0, Gs1, Hb0, Hb1, Hs0, Hs1.
  rewrite (linspace_nth _ _ _ _ j Eb HN) by exact Hj.
  rewrite (linspace_nth _ _ _ _ i Es HN) by exact Hi.
  repeat split.
Qed.

Lemma grid_spans_ranges_witness :
  exists self,
    __init__ [3; 10; 25] [1; 2; 4] None None false = Ok self /\
    exists bias_mesh slope_mesh sse_mesh,
      calculate_sse_surface self (Some (0, 1)) (Some (2, 5)) 50 3
      = Ok (bias_mesh, slope_mesh, sse_mesh) /\
      Np.get2 bias_mesh 0 0 = Ok 0 /\
      Np.get2 bias_mesh 0 49 = Ok 1 /\
      Np.get2 slope_mesh 49 0 = Ok 5.
Proof.
  eexists. split; [reflexivity|].
  match goal with |- exists _ _ _, calculate_sse_surface ?v _ _ _ _ = _ /\ _ =>
    destruct (grid_spans_ranges v [(3, 1); (10, 2); (25, 4)] (0, 1) (2, 5) 50 3
                eq_refl eq_refl ltac:(lia)) as (bm & sm & zm & E & Hcells)
  end.
  exists bm, sm, zm. split; [exact E|].
  destruct (Hcells 0%nat 0%nat ltac:(lia) ltac:(lia)) as (_ & _ & H0 & H1 & _ & H2).
  repeat split; assumption.
Defined.

(** ** The SSE surface: the slope heuristic *)

Lemma fold_left_Rmax_upper (a : list R) (v : R) :
  v <= fold_left Rmax a v /\ forall u, In u a -> u <= fold_left Rmax a v.
Proof.
  revert v. induction a as [|w a IH]; intros v; simpl.
  - split; [lra | intros u []].
  - destruct (IH (Rmax v w)) as [H1 H2]. split.
    + pose proof (Rmax_l v w). lra.
    + intros u [Eu | Hu]; [subst u; pose proof (Rmax_r v w); lra | apply H2, Hu].
Qed.

Lemma fold_left_Rmin_lower (a : list R) (v : R) :
  fold_left Rmin a v <= v /\ forall u, In u a -> fold_left Rmin a v <= u.
Proof.
  revert v. induction a as [|w a IH]; intros v; simpl.
  - split; [lra | intros u []].
  - destruct (IH (Rmin v w)) as [H1 H2]. split.
    + pose proof (Rmin_l v w). lra.
    + intros u [Eu | Hu]; [subst u; pose proof (Rmin_r v w); lra | apply H2, Hu].
Qed.

Lemma max_min_bounds (a : Np.ndarray) :
  a <> [] ->
  exists hi lo, Np.max a = Ok hi /\ Np.min a = Ok lo /\
                forall u, In u a -> lo <= u <= hi.
Proof.
  destruct a as [|v a]; [contradiction|]. intros _.
  destruct (fold_left_Rmax_upper a v) as [U1 U2].
  destruct (fold_left_Rmin_lower a v) as [L1 L2].
  eexists. eexists. split; [reflexivity|]. split; [reflexivity|].
  intros u [<- | Hu]; [lra | split; [apply L2, Hu | apply U2, Hu]].
Qed.

(** X17.  On data with at least two distinct feature values the data-driven
    slope centre is defined and is never negative: it is the ratio of the two
    spreads, so it is positive also for data that go down. *)
Theorem slope_heuristic_nonnegative (self : LinearRegressionSSEVisualizer) (u v : R) :
  In u (x_data self) -> In v (x_data self) -> u <> v -> y_data self <> [] ->
  exists c,
    slope_heuristic self = Ok c /\ 0 <= c /\
    (true_slope self = None -> slope_center_of self = Ok c).
Proof.
  intros Hu Hv Hne Hy.
  assert (Hx : x_data self <> []) by (intros E; rewrite E in Hu; destruct Hu).
  destruct (max_min_bounds _ Hx) as (xhi & xlo & Exh & Exl & Hxb).
  destruct (max_min_bounds _ Hy) as (yhi & ylo & Eyh & Eyl & Hyb).
  unfold slope_center_of, slope_heuristic. rewrite Exh, Exl, Eyh, Eyl. simpl.
  eexists. split; [reflexivity|]. split.
  - assert (Hxr : 0 < xhi - xlo).
    { pose proof (Hxb u Hu). pose proof (Hxb v Hv).
      destruct (Rtotal_order u v) as [?|[?|?]]; [lra | contradiction | lra]. }
    assert (Hyr : 0 <= yhi - ylo).
    { destruct (y_data self) as [|w ys]; [contradiction|].
      pose proof (Hyb w (or_introl eq_refl)). lra. }
    apply Rmult_le_pos; [exact Hyr | left; apply Rinv_0_lt_compat, Hxr].
  - intros ->. reflexivity.
Qed.

Lemma slope_heuristic_nonnegative_witness :
  exists self,
    __init__ [3; 10; 25] [4; 2; 1] None None false = Ok self /\
    exists c, slope_center_of self = Ok c /\ 0 <= c.
Proof.
  eexists. split; [reflexivity|].
  match goal with |- exists _, slope_center_of ?s = _ /\ _ =>
    destruct (slope_heuristic_nonnegative s 3 10) as (c & _ & Hc & Hs);
      [left; reflexivity | right; left; reflexivity | lra | discriminate |]
  end.
  exists c. split; [apply Hs; reflexivity | exact Hc].
Defined.

(** ** What the constructor stores *)

Lemma init_fields (x y : Np.ndarray) (tb ts : option R) (standardize : bool)
    (self : LinearRegressionSSEVisualizer) :
  __init__ x y tb ts standardize = Ok self ->
  surface_min_bias self = None /\ surface_min_slope self = None /\
  surface_min_sse self = None /\
  standardized self = standardize /\
  (standardize = false ->
   x_data self = x /\ y_data self = y /\ true_bias self = tb /\ true_slope self = ts /\
   x_mean self = None /\ x_std self = None /\ y_mean self = None /\ y_std self = None) /\
  (standardize = true ->
   x_data self = Np.div_scalar (Np.sub_scalar x (Np.mean x)) (Np.std x) /\
   y_data self = Np.div_scalar (Np.sub_scalar y (Np.mean y)) (Np.std y) /\
   x_mean self = Some (Np.mean x) /\ x_std self = Some (Np.std x) /\
   y_mean self = Some (Np.mean y) /\ y_std self = Some (Np.std y)).
Proof.
  unfold __init__. intros E. destruct standardize.
  - destruct (adjust_true tb ts (Np.mean x) (Np.std x) (Np.mean y) (Np.std y)) as [tb' ts'].
    apply bind_Ok_inv in E as (sse & _ & E). injection E as <-. simpl.
    repeat split; discriminate.
  - apply bind_Ok_inv in E as (sse & _ & E). injection E as <-. simpl.
    repeat split; discriminate.
Qed.

(** ** The figure *)

(** X21.  A visualizer has no surface minimum until a plot is created:
    on a freshly constructed one [_add_minima_markers] raises
    [AssertionError], whether or not the true parameters are known. *)
Theorem minima_markers_need_a_surface (x y : Np.ndarray) (tb ts : option R)
    (standardize : bool) (self : LinearRegressionSSEVisualizer) (fig : list Scatter3d) :
  __init__ x y tb ts standardize = Ok self ->
  _add_minima_markers self fig = Raise AssertionError.
Proof.
  intros E. destruct (init_fields _ _ _ _ _ _ E) as (Hb & _).
  unfold _add_minima_markers. rewrite Hb.
  destruct (true_bias self), (true_slope self), (true_sse self); reflexivity.
Qed.

Lemma minima_markers_need_a_surface_witness :
  exists self,
    __init__ [3; 10; 25] [1; 2; 4] (Some 0.5) (Some 0.15) false = Ok self /\
    _add_minima_markers self [] = Raise AssertionError.
Proof.
  assert (E : exists self,
             __init__ [3; 10; 25] [1; 2; 4] (Some 0.5) (Some 0.15) false = Ok self)
    by (eexists; reflexivity).
  destruct E as [self E]. exists self. split; [exact E|].
  exact (minima_markers_need_a_surface _ _ _ _ _ self [] E).
Defined.

Lemma argmin_from_spec (a l p : list R) (best_i : nat) (best : R) :
  a = p ++ l -> (best_i < length p)%nat -> nth best_i a 0 = best ->
  (forall u, In u p -> best <= u) ->
  let k := argmin_from best_i best (length p) l in
  (k < length a)%nat /\ forall u, In u a -> nth k a 0 <= u.
Proof.
  revert p best_i best. induction l as [|v l IH]; intros p best_i best Ea Hi Hb Hp; simpl.
  - rewrite app_nil_r in Ea. subst a. split; [exact Hi|].
    intros u Hu. rewrite Hb. apply Hp, Hu.
  - assert (Ea' : a = (p ++ [v]) ++ l) by (rewrite <- app_assoc; exact Ea).
    assert (Hlen : length (p ++ [v]) = S (length p)) by (rewrite length_app; simpl; lia).
    destruct (Rlt_dec v best) as [Hlt|Hge].
    + specialize (IH (p ++ [v]) (length p) v Ea'). rewrite Hlen in IH.
      apply IH; [lia| |].
      * rewrite Ea. rewrite app_nth2, Nat.sub_diag by lia. reflexivity.
      * intros u Hu. apply in_app_or in Hu as [Hu | [<- | []]]; [|lra].
        pose proof (Hp u Hu). lra.
    + specialize (IH (p ++ [v]) best_i best Ea'). rewrite Hlen in IH.
      apply IH; [lia | exact Hb |].
      intros u Hu. apply in_app_or in Hu as [Hu | [<- | []]]; [apply Hp, Hu | lra].
Qed.

Lemma np_argmin_spec (a : list R) (k : nat) :
  np_argmin a = Ok k -> (k < length a)%nat /\ forall u, In u a -> nth k a 0 <= u.
Proof.
  destruct a as [|v a]; [discriminate|]. intros E. injection E as <-.
  apply (argmin_from_spec (v :: a) a [v] 0 v); simpl; auto.
  intros u [<- | []]. lra.
Qed.

Lemma fold_left_Rmin_In (a : list R) (v : R) : In (fold_left Rmin a v) (v :: a).
Proof.
  revert v. induction a as [|w a IH]; intros v; simpl; [left; reflexivity|].
  destruct (IH (Rmin v w)) as [E | Hin]; [|right; right; exact Hin].
  rewrite <- E. unfold Rmin. destruct (Rle_dec v w); [left | right; left]; reflexivity.
Qed.

Lemma np_min_spec (a : list R) (m : R) :
  Np.min a = Ok m -> In m a /\ forall u, In u a -> m <= u.
Proof.
  destruct a as [|v a]; [discriminate|]. intros E. injection E as <-.
  split; [apply fold_left_Rmin_In|].
  destruct (fold_left_Rmin_lower a v) as [L1 L2].
  intros u [<- | Hu]; [exact L1 | apply L2, Hu].
Qed.

Lemma get2_in_concat (m : Np.ndarray2) (i j : nat) (v : R) :
  Np.get2 m i j = Ok v -> In v (concat m).
Proof.
  unfold Np.get2. destruct (nth_error m i) as [row|] eqn:Er; [|discriminate].
  destruct (nth_error row j) as [w|] eqn:Ev; [|discriminate].
  intros E. injection E as <-. apply in_concat. exists row.
  split; [eapply nth_error_In, Er | eapply nth_error_In, Ev].
Qed.

Lemma concat_length (r c : nat) (m : Np.ndarray2) :
  shape r c m -> length (concat m) = (r * c)%nat.
Proof.
  revert r. induction m as [|row m IH]; intros r Hs.
  - destruct Hs as [Hl _]. simpl in Hl. subst r. reflexivity.
  - destruct r as [|r]; [destruct Hs as [Hl _]; discriminate|].
    destruct (shape_tail r c row m Hs) as [Hrow Hm].
    simpl. rewrite length_app, Hrow, (IH r Hm). reflexivity.
Qed.

Lemma get2_unravel (r c : nat) (m : Np.ndarray2) (k : nat) :
  shape r c m -> (k < r * c)%nat ->
  Np.get2 m (k / c) (k mod c) = Ok (nth k (concat m) 0).
Proof.
  revert r k. induction m as [|row m IH]; intros r k Hs Hk.
  - destruct Hs as [Hl _]. simpl in Hl. subst r. simpl in Hk. lia.
  - destruct r as [|r]; [destruct Hs as [Hl _]; discriminate|].
    destruct (shape_tail r c row m Hs) as [Hrow Hm].
    assert (Hc : (0 < c)%nat) by (destruct c; [lia | lia]).
    destruct (Nat.lt_ge_cases k c) as [Hlt|Hge].
    + rewrite Nat.div_small, Nat.mod_small by exact Hlt.
      unfold Np.get2. simpl. rewrite nth_error_nth_R by lia.
      rewrite app_nth1 by lia. reflexivity.
    + replace k with ((k - c) + 1 * c)%nat at 1 2 by lia.
      rewrite Nat.div_add, Nat.Div0.mod_add by lia.
      replace ((k - c) / c + 1)%nat with (S ((k - c) / c)) by lia.
      change (Np.get2 (row :: m) (S ((k - c) / c)) ((k - c) mod c))
        with (Np.get2 m ((k - c) / c) ((k - c) mod c)).
      rewrite (IH r (k - c)%nat Hm) by (simpl in Hk; lia).
      simpl. rewrite app_nth2 by lia. rewrite Hrow. reflexivity.
Qed.

Lemma shape_of_square (n : nat) (m : Np.ndarray2) :
  shape n n m -> (1 <= n)%nat -> shape_of m = (n, n).
Proof.
  intros [Hl Hrows] Hn. unfold shape_of. destruct m as [|row m]; [simpl in Hl; lia|].
  simpl. rewrite (Hrows 0%nat row eq_refl). f_equal. exact Hl.
Qed.

Lemma sse_of_dataset_nonneg (data : list (R * R)) (b s : R) : 0 <= sse_of_dataset data b s.
Proof.
  induction data as [|[u v] data IH]; simpl; [lra|].
  pose proof (pow2_ge_0 (v - (b + s * u))) as Hp. simpl in *. lra.
Qed.

(** What a returned surface is, for supplied or detected ranges. *)
Lemma calculate_sse_surface_cells (self : LinearRegressionSSEVisualizer)
    (data : list (R * R)) (bias_range slope_range : option (R * R)) (resolution : Z)
    (scale_factor : R) (bias_mesh slope_mesh sse_mesh : Np.ndarray2) :
  x_data self = map fst data -> y_data self = map snd data ->
  calculate_sse_surface self bias_range slope_range resolution scale_factor
  = Ok (bias_mesh, slope_mesh, sse_mesh) ->
  let n := Z.to_nat resolution in
  (0 <= resolution)%Z /\
  shape n n bias_mesh /\ shape n n slope_mesh /\ shape n n sse_mesh /\
  forall i j, (i < n)%nat -> (j < n)%nat ->
    exists b s, Np.get2 bias_mesh i j = Ok b /\ Np.get2 slope_mesh i j = Ok s /\
                Np.get2 sse_mesh i j = Ok (sse_of_dataset data b s).
Proof.
  intros Ex Ey E n.
  assert (D : exists br sr,
             detect_ranges self bias_range slope_range scale_factor = Ok (Some br, Some sr)).
  { unfold calculate_sse_surface in E.
    destruct (detect_ranges self bias_range slope_range scale_factor) as [[o1 o2]|e];
      [|discriminate].
    simpl in E. destruct o1 as [br|]; [|discriminate]. destruct o2 as [sr|]; [|discriminate].
    eauto. }
  destruct D as (br & sr & D).
  rewrite (calculate_sse_surface_by_ranges self _ _ br sr resolution scale_factor D) in E.
  assert (HN : (0 <= resolution)%Z).
  { destruct (Z.lt_ge_cases resolution 0) as [Hneg|Hpos]; [|exact Hpos].
    rewrite calculate_sse_surface_negative in E by exact Hneg. discriminate. }
  destruct (calculate_sse_surface_both_supplied self data br sr resolution scale_factor
              Ex Ey HN)
    as (bias_vals & slope_vals & bm & sm & zm & _ & _ & E' & Sb & Ss & Sz & Hcells).
  rewrite E' in E. injection E as <- <- <-.
  split; [exact HN|]. split; [exact Sb|]. split; [exact Ss|]. split; [exact Sz|].
  intros i j Hi Hj. destruct (Hcells i j Hi Hj) as (Gb & Gs & Gz). eauto.
Qed.

Section CreatePlot.

Variables (self : LinearRegressionSSEVisualizer).
Variables (bias_samples slope_samples loss_samples : option (list R)).
Variables (bias_range slope_range : option (R * R)) (resolution : Z).
Variables (colorscale title : string) (scale_factor : R) (show_contours : bool).

Lemma create_3d_surface_plot_inv (fig : Figure) (self' : LinearRegressionSSEVisualizer) :
  create_3d_surface_plot self bias_samples slope_samples loss_samples bias_range slope_range
    resolution colorscale title scale_factor show_contours = Ok (fig, self') ->
  exists bias_mesh slope_mesh sse_mesh flat min_bias min_slope min_sse path,
    calculate_sse_surface self bias_range slope_range resolution scale_factor
    = Ok (bias_mesh, slope_mesh, sse_mesh) /\
    np_argmin (concat sse_mesh) = Ok flat /\
    Np.get2 bias_mesh (fst (unravel_index flat (shape_of sse_mesh)))
      (snd (unravel_index flat (shape_of sse_mesh))) = Ok min_bias /\
    Np.get2 slope_mesh (fst (unravel_index flat (shape_of sse_mesh)))
      (snd (unravel_index flat (shape_of sse_mesh))) = Ok min_slope /\
    Np.min (concat sse_mesh) = Ok min_sse /\
    self' = set_surface_min self min_bias min_slope min_sse /\
    match bias_samples, slope_samples, loss_samples with
    | Some b, Some s, Some l => _add_optimization_trace [] b s l
    | _, _, _ => Ok []
    end = Ok path /\
    _add_minima_markers self' path = Ok (fig_traces fig) /\
    fig_surface fig = {| surface_x := bias_mesh; surface_y := slope_mesh;
                         surface_z := sse_mesh; surface_colorscale := colorscale;
                         surface_contours := show_contours |} /\
    fig_title fig = title /\ fig_width fig = 800%Z /\ fig_height fig = 600%Z.
Proof.
  unfold create_3d_surface_plot. intros E.
  apply bind_Ok_inv in E as ([[bias_mesh slope_mesh] sse_mesh] & Es & E). cbv zeta in E.
  apply bind_Ok_inv in E as (flat & Ef & E).
  destruct (unravel_index flat (shape_of sse_mesh)) as [i j] eqn:Eu.
  apply bind_Ok_inv in E as (min_bias & Eb & E).
  apply bind_Ok_inv in E as (min_slope & Esl & E).
  apply bind_Ok_inv in E as (min_sse & Em & E).
  apply bind_Ok_inv in E as (path & Ep & E).
  apply bind_Ok_inv in E as (traces & Et & E).
  injection E as <- <-.
  exists bias_mesh, slope_mesh, sse_mesh, flat, min_bias, min_slope, min_sse, path.
  rewrite Eu. cbn [fst snd fig_traces fig_surface fig_title fig_width fig_height].
  repeat split; assumption.
Qed.

(** X22.  The surface minimum that a created plot leaves on the visualizer
    is a cell of the grid: its SSE is the SSE of its bias and slope over the
    whole dataset, it is not negative, and no cell of the surface has a
    smaller SSE.  The data and the true parameters of the visualizer are
    unchanged. *)
Theorem surface_minimum_is_least_cell (data : list (R * R)) (fig : Figure)
    (self' : LinearRegressionSSEVisualizer) :
  x_data self = map fst data -> y_data self = map snd data ->
  create_3d_surface_plot self bias_samples slope_samples loss_samples bias_range slope_range
    resolution colorscale title scale_factor show_contours = Ok (fig, self') ->
  exists b s v i j,
    surface_min_bias self' = Some b /\
    surface_min_slope self' = Some s /\
    surface_min_sse self' = Some v /\
    Np.get2 (surface_x (fig_surface fig)) i j = Ok b /\
    Np.get2 (surface_y (fig_surface fig)) i j = Ok s /\
    Np.get2 (surface_z (fig_surface fig)) i j = Ok v /\
    v = sse_of_dataset data b s /\
    0 <= v /\
    (forall i' j' cell,
       Np.get2 (surface_z (fig_surface fig)) i' j' = Ok cell -> v <= cell) /\
    x_data self' = x_data self /\ y_data self' = y_data self /\
    true_bias self' = true_bias self /\ true_slope self' = true_slope self /\
    true_sse self' = true_sse self.
Proof.
  intros Ex Ey E.
  destruct (create_3d_surface_plot_inv fig self' E)
    as (bm & sm & zm & flat & mb & ms & mv & path
        & Es & Ef & Eb & Esl & Em & -> & _ & _ & -> & _).
  destruct (calculate_sse_surface_cells self data _ _ _ _ bm sm zm Ex Ey Es)
    as (HN & Sb & Ss & Sz & Hcells).
  set (n := Z.to_nat resolution) in *.
  destruct (np_argmin_spec _ _ Ef) as [Hflat Hleast].
  rewrite (concat_length n n zm Sz) in Hflat.
  assert (Hn : (1 <= n)%nat) by (destruct n; [simpl in Hflat; lia | lia]).
  rewrite (shape_of_square n zm Sz Hn) in Eb, Esl.
  unfold unravel_index in Eb, Esl. simpl in Eb, Esl.
  assert (Hi : (flat / n < n)%nat) by (apply Nat.Div0.div_lt_upper_bound; lia).
  assert (Hj : (flat mod n < n)%nat) by (apply Nat.mod_upper_bound; lia).
  destruct (Hcells _ _ Hi Hj) as (b & s & Gb & Gs & Gz).
  rewrite Gb in Eb. injection Eb as <-. rewrite Gs in Esl. injection Esl as <-.
  destruct (np_min_spec _ _ Em) as [Hin Hmin].
  assert (Ev : mv = sse_of_dataset data b s).
  { pose proof (get2_unravel n n zm flat Sz Hflat) as Gf. rewrite Gz in Gf.
    injection Gf as Gf.
    apply Rle_antisym.
    - rewrite Gf. apply Hmin. apply nth_In. rewrite (concat_length n n zm Sz). exact Hflat.
    - rewrite Gf. apply Hleast, Hin. }
  exists b, s, mv, (flat / n)%nat, (flat mod n)%nat. simpl.
  repeat split; trivial.
  - rewrite Ev. exact Gz.
  - rewrite Ev. apply sse_of_dataset_nonneg.
  - intros i' j' cell Gc. apply Hmin. eapply get2_in_concat, Gc.
Qed.

Lemma add_minima_markers_after_plot (b s v : R) (path : list Scatter3d) :
  _add_minima_markers (set_surface_min self b s v) path
  = Ok (path
        ++ match true_bias self, true_slope self, true_sse self with
           | Some tb, Some ts, Some tv =>
               [ {| name := "True Minimum"; mode := "markers";
                    xs := [tb]; ys := [ts]; zs := [tv];
                    marker_size := 10; color := ColorName "gold" |} ]
           | _, _, _ => []
           end
        ++ [ {| name := "Surface Minimum"; mode := "markers";
                xs := [b]; ys := [s]; zs := [v];
                marker_size := 10; color := ColorName "limegreen" |} ]).
Proof.
  unfold _add_minima_markers. simpl.
  destruct (true_bias self), (true_slope self), (true_sse self); simpl;
    rewrite <- ?app_assoc; reflexivity.
Qed.

(** X23.  The scatter traces of a created figure, in order: the path layer
    (path, start marker, end marker) when all three sample sequences are
    given and silently nothing when one of them is missing; then the
    true-minimum marker when the visualizer knows both true parameters and
    their SSE; then, always, the surface-minimum marker, at the coordinates
    left on the visualizer. *)
Theorem figure_traces (fig : Figure) (self' : LinearRegressionSSEVisualizer) :
  create_3d_surface_plot self bias_samples slope_samples loss_samples bias_range slope_range
    resolution colorscale title scale_factor show_contours = Ok (fig, self') ->
  map name (fig_traces fig)
  = match bias_samples, slope_samples, loss_samples with
    | Some _, Some _, Some _ =>
        ["Optimization Path"%string; "Start Point"%string; "End Point"%string]
    | _, _, _ => []
    end
    ++ match true_bias self, true_slope self, true_sse self with
       | Some _, Some _, Some _ => ["True Minimum"%string]
       | _, _, _ => []
       end
    ++ ["Surface Minimum"%string]
  /\
  exists b s v,
    surface_min_bias self' = Some b /\ surface_min_slope self' = Some s /\
    surface_min_sse self' = Some v /\
    last (fig_traces fig)
      {| name := ""; mode := ""; xs := []; ys := []; zs := []; marker_size := 0;
         color := ColorName "" |}
    = {| name := "Surface Minimum"; mode := "markers"; xs := [b]; ys := [s]; zs := [v];
         marker_size := 10; color := ColorName "limegreen" |}.
Proof.
  intros E.
  destruct (create_3d_surface_plot_inv fig self' E)
    as (bm & sm & zm & flat & mb & ms & mv & path
        & _ & _ & _ & _ & _ & -> & Ep & Et & _).
  rewrite add_minima_markers_after_plot in Et. injection Et as Et. rewrite <- Et.
  split.
  - rewrite !map_app. f_equal; [|f_equal].
    + destruct bias_samples as [b|]; [|injection Ep as <-; reflexivity].
      destruct slope_samples as [s|]; [|injection Ep as <-; reflexivity].
      destruct loss_samples as [l|]; [|injection Ep as <-; reflexivity].
      destruct (add_optimization_trace_nonempty _ _ _ _ _ Ep) as (Hb & Hs & Hl).
      destruct (add_optimization_trace_returns [] _ _ _ Hb Hs Hl) as (colors & _ & Er).
      rewrite Er in Ep. injection Ep as <-. reflexivity.
    + destruct (true_bias self), (true_slope self), (true_sse self); reflexivity.
  - exists mb, ms, mv. simpl. repeat split.
    rewrite app_assoc. apply last_last.
Qed.

End CreatePlot.

Lemma init_true_sse_presence (self : LinearRegressionSSEVisualizer) :
  __init__ [3; 10; 25] [1; 2; 4] (Some 0.5) (Some 0.15) false = Ok self ->
  exists tb ts tv, true_bias self = Some tb /\ true_slope self = Some ts /\
                   true_sse self = Some tv.
Proof.
  rewrite init_raw by reflexivity. intros E. injection E as <-. simpl.
  eexists. eexists. eexists. repeat split.
Qed.

(** A plot of one cell, with a two-point path and known true parameters. *)
Lemma create_plot_single_cell :
  exists self fig self',
    __init__ [3; 10; 25] [1; 2; 4] (Some 0.5) (Some 0.15) false = Ok self /\
    create_3d_surface_plot self (Some [1; 2]) (Some [3; 4]) (Some [5; 6])
      (Some (0, 1)) (Some (0, 1)) 1 "RdBu_r" "Linear Regression SSE Surface" 3 true
    = Ok (fig, self').
Proof.
  eexists. eexists. eexists. split; reflexivity.
Qed.

Lemma np_argmin_returns (a : list R) : a <> [] -> exists k, np_argmin a = Ok k.
Proof.
  destruct a as [|v a]; [contradiction | simpl; eauto].
Qed.

Lemma np_min_returns (a : list R) : a <> [] -> exists m, Np.min a = Ok m.
Proof.
  destruct a as [|v a]; [contradiction | simpl; eauto].
Qed.

(** With both ranges supplied and a resolution of at least 1 the plot is
    created on every dataset, for a path that is absent or has no empty
    sequence. *)
Lemma create_3d_surface_plot_returns (self : LinearRegressionSSEVisualizer)
    (data : list (R * R)) (bias_samples slope_samples loss_samples : option (list R))
    (bias_range slope_range : R * R) (resolution : Z)
    (colorscale title : string) (scale_factor : R) (show_contours : bool) :
  x_data self = map fst data -> y_data self = map snd data ->
  (1 <= resolution)%Z ->
  (forall b s l,
     bias_samples = Some b -> slope_samples = Some s -> loss_samples = Some l ->
     b <> [] /\ s <> [] /\ l <> []) ->
  exists fig self',
    create_3d_surface_plot self bias_samples slope_samples loss_samples
      (Some bias_range) (Some slope_range) resolution colorscale title scale_factor
      show_contours = Ok (fig, self').
Proof.
  intros Ex Ey HN Hpath.
  destruct (calculate_sse_surface_both_supplied self data bias_range slope_range resolution
              scale_factor Ex Ey ltac:(lia))
    as (bv & sv & bm & sm & zm & _ & _ & Es & Sb & Ss & Sz & Hcells).
  set (n := Z.to_nat resolution) in *.
  assert (Hn : (1 <= n)%nat) by lia.
  assert (Hne : concat zm <> []).
  { intros Ec. pose proof (concat_length n n zm Sz) as Hl. rewrite Ec in Hl. simpl in Hl. nia. }
  destruct (np_argmin_returns _ Hne) as [flat Ef].
  destruct (np_min_returns _ Hne) as [mv Em].
  destruct (np_argmin_spec _ _ Ef) as [Hflat _]. rewrite (concat_length n n zm Sz) in Hflat.
  assert (Hi : (flat / n < n)%nat) by (apply Nat.Div0.div_lt_upper_bound; lia).
  assert (Hj : (flat mod n < n)%nat) by (apply Nat.mod_upper_bound; lia).
  destruct (Hcells _ _ Hi Hj) as (Gb & Gs & _).
  assert (Ep : exists path,
             match bias_samples, slope_samples, loss_samples with
             | Some b, Some s, Some l => _add_optimization_trace [] b s l
             | _, _, _ => Ok []
             end = Ok path).
  { destruct bias_samples as [b|]; [|eauto]. destruct slope_samples as [sl|]; [|eauto].
    destruct loss_samples as [l|]; [|eauto].
    destruct (Hpath b sl l eq_refl eq_refl eq_refl) as (Hb & Hs & Hl).
    destruct (add_optimization_trace_returns [] b sl l Hb Hs Hl) as (colors & _ & ->).
    eauto. }
  destruct Ep as [path Ep].
  unfold create_3d_surface_plot. rewrite Es. cbn [bind]. rewrite Ef. cbn [bind].
  rewrite (shape_of_square n zm Sz Hn). unfold unravel_index. cbn [fst snd].
  rewrite Gb. cbn [bind]. rewrite Gs. cbn [bind]. rewrite Em. cbn [bind].
  rewrite Ep. cbn [bind]. rewrite add_minima_markers_after_plot. cbn [bind].
  eauto.
Qed.

(** A plot of nine cells, with a two-point path and known true parameters. *)
Lemma create_plot_nine_cells :
  exists self fig self',
    __init__ [3; 10; 25] [1; 2; 4] (Some 0.5) (Some 0.15) false = Ok self /\
    create_3d_surface_plot self (Some [1; 2]) (Some [3; 4]) (Some [5; 6])
      (Some (0, 1)) (Some (0, 1)) 3 "RdBu_r" "Linear Regression SSE Surface" 3 true
    = Ok (fig, self') /\
    x_data self = map fst [(3, 1); (10, 2); (25, 4)] /\
    y_data self = map snd [(3, 1); (10, 2); (25, 4)].
Proof.
  assert (E : exists self,
             __init__ [3; 10; 25] [1; 2; 4] (Some 0.5) (Some 0.15) false = Ok self)
    by (eexists; reflexivity).
  destruct E as [self Ei].
  destruct (init_fields _ _ _ _ _ _ Ei) as (_ & _ & _ & _ & Hraw & _).
  destruct (Hraw eq_refl) as (Ex & Ey & _).
  assert (Ex' : x_data self = map fst [(3, 1); (10, 2); (25, 4)])
    by (rewrite Ex; reflexivity).
  assert (Ey' : y_data self = map snd [(3, 1); (10, 2); (25, 4)])
    by (rewrite Ey; reflexivity).
  destruct (create_3d_surface_plot_returns self [(3, 1); (10, 2); (25, 4)]
              (Some [1; 2]) (Some [3; 4]) (Some [5; 6]) (0, 1) (0, 1) 3
              "RdBu_r" "Linear Regression SSE Surface" 3 true Ex' Ey' ltac:(lia))
    as (fig & self' & Ec).
  { intros b s l Eb Es El. injection Eb as <-. injection Es as <-. injection El as <-.
    repeat split; discriminate. }
  exists self, fig, self'. repeat split; assumption.
Qed.

Lemma get2_bounds (r c : nat) (m : Np.ndarray2) (i j : nat) (v : R) :
  shape r c m -> Np.get2 m i j = Ok v -> (i < r)%nat /\ (j < c)%nat.
Proof.
  intros [Hl Hrows] E. unfold Np.get2 in E.
  destruct (nth_error m i) as [row|] eqn:Er; [|discriminate].
  destruct (nth_error row j) as [w|] eqn:Ev; [|discriminate].
  split.
  - rewrite <- Hl. apply nth_error_Some. congruence.
  - rewrite <- (Hrows i row Er). apply nth_error_Some. congruence.
Qed.

(** On the grid of biases and slopes 0, 0.5, 1 the smallest SSE of the three
    customers is 10, at bias 1 and slope 0. *)
Lemma surface_minimum_is_least_cell_witness :
  exists self fig self',
    __init__ [3; 10; 25] [1; 2; 4] (Some 0.5) (Some 0.15) false = Ok self /\
    create_3d_surface_plot self (Some [1; 2]) (Some [3; 4]) (Some [5; 6])
      (Some (0, 1)) (Some (0, 1)) 3 "RdBu_r" "Linear Regression SSE Surface" 3 true
    = Ok (fig, self') /\
    length (concat (surface_z (fig_surface fig))) = 9%nat /\
    surface_min_bias self' = Some 1 /\ surface_min_slope self' = Some 0 /\
    surface_min_sse self' = Some 10 /\
    Np.get2 (surface_z (fig_surface fig)) 0 2 = Ok 10 /\
    (forall i j cell, Np.get2 (surface_z (fig_surface fig)) i j = Ok cell -> 10 <= cell).
Proof.
  destruct create_plot_nine_cells as (self & fig & self' & Ei & Ec & Ex & Ey).
  destruct (surface_minimum_is_least_cell self _ _ _ _ _ _ _ _ _ _
              [(3, 1); (10, 2); (25, 4)] fig self' Ex Ey Ec)
    as (b & s & v & i & j & Hb & Hs & Hv & Gb & Gs & Gz & Ev & _ & Hleast & _).
  destruct (create_3d_surface_plot_inv self _ _ _ _ _ _ _ _ _ _ fig self' Ec)
    as (bm & sm & zm & flat & mb & ms & mv & path
        & Es & _ & _ & _ & _ & _ & _ & _ & Hsurf & _).
  rewrite Hsurf in Hleast, Gb, Gs, Gz.
  cbn [surface_x surface_y surface_z] in *.
  destruct (calculate_sse_surface_both_supplied self [(3, 1); (10, 2); (25, 4)]
              (0, 1) (0, 1) 3 3 Ex Ey ltac:(lia))
    as (bv & sv & bm' & sm' & zm' & Ebv & Esv & Es' & Sb & Ss & Sz & Hcells).
  rewrite Es in Es'. injection Es' as <- <- <-.
  unfold Np.linspace in Ebv, Esv. simpl in Ebv, Esv.
  injection Ebv as <-. injection Esv as <-.
  destruct (get2_bounds _ _ _ _ _ _ Sz Gz) as [Hi Hj].
  destruct (Hcells 0%nat 2%nat ltac:(simpl; lia) ltac:(simpl; lia)) as (_ & _ & G02).
  pose proof (Hleast _ _ _ G02) as Hle.
  destruct (Hcells i j Hi Hj) as (Gb' & Gs' & Gz').
  rewrite Gb in Gb'. rewrite Gs in Gs'. rewrite Gz in Gz'.
  injection Gb' as Eb. injection Gs' as Es2. injection Gz' as Ez.
  simpl in Hi, Hj.
  assert (Hmin : v = 10 /\ b = 1 /\ s = 0).
  { destruct i as [|[|[|i]]]; [| | |lia]; destruct j as [|[|[|j]]]; try lia;
      simpl in Eb, Es2, Ez, Hle; lra. }
  destruct Hmin as (-> & -> & ->).
  exists self, fig, self'. rewrite Hsurf. cbn [surface_z].
  split; [exact Ei|]. split; [exact Ec|].
  split; [exact (concat_length 3 3 zm Sz)|].
  split; [exact Hb|]. split; [exact Hs|]. split; [exact Hv|].
  split; [|exact Hleast].
  rewrite G02. f_equal. simpl. lra.
Defined.

Lemma figure_traces_witness :
  exists self fig self',
    __init__ [3; 10; 25] [1; 2; 4] (Some 0.5) (Some 0.15) false = Ok self /\
    create_3d_surface_plot self (Some [1; 2]) (Some [3; 4]) (Some [5; 6])
      (Some (0, 1)) (Some (0, 1)) 1 "RdBu_r" "Linear Regression SSE Surface" 3 true
    = Ok (fig, self') /\
    length (fig_traces fig) = 5%nat.
Proof.
  destruct create_plot_single_cell as (self & fig & self' & Ei & Ec).
  exists self, fig, self'. split; [exact Ei|]. split; [exact Ec|].
  destruct (figure_traces self _ _ _ _ _ _ _ _ _ _ fig self' Ec) as [Hnames _].
  rewrite <- (length_map name), Hnames.
  destruct (init_true_sse_presence self Ei) as (tb & ts & tv & -> & -> & ->).
  reflexivity.
Defined.
